(** * jrnl: the command-line front end ([jrnl/jrnl.py])

    A shallow embedding of [guess_mode], [get_text_from_editor], [encrypt],
    [decrypt], [print_tags], [touch_journal], [update_config] and [cli],
    followed by the properties of the tag report, of the mode dispatch and
    of the store life cycle that the front end is responsible for.

    Python values are modelled as follows.
    - [str] is [string] (a sequence of bytes, as in Python 2; for UTF-8 text
      the byte-wise order used below agrees with the code-point order).
    - A [list] is a [list]; a [set] is a duplicate-free [list] (the report is
      sorted before it is printed, so the iteration order of a set is never
      observable).
    - The process environment is an explicit [World]: the file system, the
      saved configuration, the pending terminal input and everything shown
      to the user.  Code that performs effects lives in the monad [M], which
      threads the world and propagates uncaught exceptions and [sys.exit]. *)

From stdpp Require Import base option list sorting strings pretty gmap.
From Stdlib Require Import Ascii.

Local Open Scope string_scope.

(** ** Data model *)

(** An entry of the journal.  [date] is the timestamp in seconds. *)
Record Entry := mkEntry {
  date : Z;
  title : string;
  body : string;
  tags : list string;
  starred : bool
}.

#[global] Instance Entry_eq_dec : EqDecision Entry.
Proof. solve_decision. Defined.

(** The values a journal-specific dictionary of the configuration may
    override; [None] is an absent key. *)
Record Overrides := mkOverrides {
  o_journal : option string;
  o_editor : option string;
  o_encrypt : option bool;
  o_password : option string;
  o_tagsymbols : option string
}.

(** [config['journals'][name]] is either a path or a dictionary. *)
Inductive JournalConf :=
| ConfPath (p : string)
| ConfDict (d : Overrides).

(** The configuration dictionary, restricted to the keys the front end
    reads ([cfg_journal] is [config['journal']], and so on); [cfg_journal]
    is [None] when the key holds no path. *)
Record Config := mkConfig {
  cfg_journal : option string;
  cfg_editor : string;
  cfg_encrypt : bool;
  cfg_password : string;
  cfg_tagsymbols : string;
  cfg_journals : gmap string JournalConf
}.

(** [argparse]'s optional-argument-with-optional-value ([nargs='?',
    default=False, const=None]): not given, given bare, given with a value. *)
Inductive OptArg :=
| ArgFalse
| ArgNone
| ArgStr (s : string).

(** The namespace returned by [parse_args]. *)
Record Args := mkArgs {
  a_date : option string;
  a_star : bool;
  a_text : list string;
  a_start_date : option string;
  a_end_date : option string;
  a_strict : bool;
  a_limit : option Z;
  a_short : bool;
  a_tags : bool;
  a_json : bool;
  a_markdown : bool;
  a_encrypt : OptArg;
  a_decrypt : OptArg;
  a_delete_last : bool
}.

(** A [Journal] object: its entries, its own copy of the configuration, the
    key used by the crypto gate, and whether it is a [Journal.DayOne]. *)
Record Journal := mkJournal {
  entries : list Entry;
  config : Config;
  key : option string;
  dayone : bool
}.

(** ** The world and the effect monad *)

Inductive Node :=
| File (content : string)
| Dir.

(** Something shown on the terminal: a printed line or a prompt. *)
Inductive Output :=
| Line (s : string)
| Prompt (s : string).

(** [fs] maps a path to what is stored there, [config_file] is the content
    of the configuration file when it exists, [stdin] the lines the user
    will type, [edits] what the user will save in each editor session,
    [out] what the terminal has shown so far. *)
Record World := mkWorld {
  fs : gmap string Node;
  config_file : option Config;
  stdin : list string;
  edits : list (option string);
  out : list Output
}.

Inductive Exn :=
| IndexError
| TypeError
| KeyError
| IOError
| EOFError
| ParseError
| DateParseError
| AuthenticationError.

Inductive Res (A : Type) :=
| Val (a : A)
| Raise (e : Exn)
| Exit (code : Z).
Arguments Val {A} a.
Arguments Raise {A} e.
Arguments Exit {A} code.

Definition M (A : Type) : Type := World → Res A * World.

Definition ret {A} (a : A) : M A := λ w, (Val a, w).

Definition bind {A B} (f : A → M B) (m : M A) : M B := λ w,
  match m w with
  | (Val a, w') => f a w'
  | (Raise e, w') => (Raise e, w')
  | (Exit c, w') => (Exit c, w')
  end.

(** The notations [x ← m; k] and [m;; k] are those of [MBind]. *)
#[global] Instance M_ret : MRet M := @ret.
#[global] Instance M_bind : MBind M := @bind.

Definition raise {A} (e : Exn) : M A := λ w, (Raise e, w).
Definition sys_exit {A} (c : Z) : M A := λ w, (Exit c, w).

Definition print (s : string) : M unit := λ w,
  (Val tt,
   mkWorld (fs w) (config_file w) (stdin w) (edits w) (out w ++ [Line s])).

(** [for x in l: body x] *)
Fixpoint for_each {A} (l : list A) (body : A → M unit) : M unit :=
  match l with
  | [] => ret tt
  | x :: l' => body x;; for_each l' body
  end.

(** ** Python helpers *)

(** [sep.join(l)] *)
Fixpoint join (sep : string) (l : list string) : string :=
  match l with
  | [] => ""
  | [s] => s
  | s :: l' => s ++ sep ++ join sep l'
  end.

(** [s.split()] is [String.words s]: maximal runs of characters other than
    space, tab, line feed, vertical tab, form feed and carriage return. *)
Definition split (s : string) : list string := String.words s.

(** [c in s] for a character [c] *)
Fixpoint char_in (c : ascii) (s : string) : bool :=
  match s with
  | "" => false
  | String c' s' => if Ascii.eqb c c' then true else char_in c s'
  end.

(** Truth value of a string, of an optional string, of an optional number
    and of a list. *)
Definition truthy (s : string) : bool :=
  match s with "" => false | _ => true end.
Definition truthy_opt (o : option string) : bool :=
  match o with Some s => truthy s | None => false end.
Definition truthy_int (o : option Z) : bool :=
  match o with Some z => negb (z =? 0)%Z | None => false end.
Definition truthy_list {A} (l : list A) : bool :=
  match l with [] => false | _ => true end.

(** [x is not False] and the truth value of an [OptArg] *)
Definition is_not_False (a : OptArg) : bool :=
  match a with ArgFalse => false | _ => true end.
Definition truthy_arg (a : OptArg) : bool :=
  match a with ArgStr s => truthy s | _ => false end.
Definition filename_of (a : OptArg) : option string :=
  match a with ArgStr s => Some s | _ => None end.

(** [filename or default], both possibly [None], and the text that
    [format] shows for the result *)
Definition or_else (filename default : option string) : option string :=
  match filename with
  | Some s => if truthy s then Some s else default
  | None => default
  end.
Definition str_opt (o : option string) : string :=
  match o with Some s => s | None => "None" end.

(** [l.count(x)] *)
Definition count (x : string) (l : list string) : nat :=
  List.length (filter (λ y, y = x) l).

(** Order of the tuples [(n, tag)]: by [n], then by [tag]. *)
Definition tuple_leb (x y : nat * string) : bool :=
  (x.1 <? y.1)%nat || ((x.1 =? y.1)%nat && String.leb x.2 y.2).
Definition tuple_le (x y : nat * string) : Prop := tuple_leb x y.
Definition tuple_lt (x y : nat * string) : Prop := tuple_le x y ∧ x ≠ y.

#[global] Instance tuple_le_dec : RelDecision tuple_le.
Proof. intros x y. unfold tuple_le. apply _. Defined.

(** [min(x :: l)] *)
Fixpoint py_min (x : nat * string) (l : list (nat * string))
    : nat * string :=
  match l with
  | [] => x
  | y :: l' => py_min (if tuple_leb x y then x else y) l'
  end.

(** [sorted(l, reverse=False)] *)
Definition sorted (l : list (nat * string)) : list (nat * string) :=
  merge_sort tuple_le l.

(** ["{0:20}".format(s)]: [s] padded on the right to twenty characters. *)
Definition ljust20 (s : string) : string :=
  s ++ join "" (replicate (20 - String.length s) " ").

(** ["{0:20} : {1}".format(tag, n)] *)
Definition format_tag (tag : string) (n : nat) : string :=
  ljust20 tag ++ " : " ++ pretty n.

(** ** [print_tags] *)

(** [[tag for entry in journal.entries for tag in set(entry.tags)]] *)
Definition all_tags (journal : Journal) : list string :=
  flat_map (λ entry, remove_dups (tags entry)) (entries journal).

(** [set([(tags.count(tag), tag) for tag in tags])] *)
Definition tag_counts_of (tags : list string) : list (nat * string) :=
  remove_dups (map (λ tag, (count tag tags, tag)) tags).

(** Prints a list of all tags and the number of occurrences. *)
Definition print_tags (journal : Journal) : M unit :=
  let tags := all_tags journal in
  let tag_counts := tag_counts_of tags in
  tag_counts ←
    match tag_counts with
    | [] => print "[No tags found in journal.]";; ret tag_counts
    | x :: l =>
        if ((py_min x l).1 =? 0)%nat then
          let tag_counts := filter (λ x, (1 < x.1)%nat) tag_counts in
          print "[Removed tags that appear only once.]";; ret tag_counts
        else ret tag_counts
    end;
  for_each (sorted tag_counts) (λ '(n, tag), print (format_tag tag n)).

(** ** More Python helpers *)

(** [s.strip()] *)
Fixpoint lstrip (s : string) : string :=
  match s with
  | "" => ""
  | String c s' => if Ascii.is_space c then lstrip s' else s
  end.
Definition rstrip (s : string) : string := String.rev (lstrip (String.rev s)).
Definition strip (s : string) : string := rstrip (lstrip s).

(** [s.endswith(suffix)] *)
Definition endswith (s suffix : string) : bool :=
  String.prefix (String.rev suffix) (String.rev s).

(** [os.path.join(a, b)] for a relative [b] *)
Definition os_path_join (a b : string) : string :=
  if negb (truthy a) || endswith a "/" then a ++ b else a ++ "/" ++ b.

(** [l.pop()]: the last element and the list without it; [None] stands for
    the [IndexError] raised on an empty list. *)
Definition pop {A} (l : list A) : option (A * list A) :=
  match last l with
  | Some x => Some (x, removelast l)
  | None => None
  end.

(** ** Updates of records *)

Definition set_text (text : list string) (a : Args) : Args :=
  mkArgs (a_date a) (a_star a) text (a_start_date a) (a_end_date a)
    (a_strict a) (a_limit a) (a_short a) (a_tags a) (a_json a)
    (a_markdown a) (a_encrypt a) (a_decrypt a) (a_delete_last a).

Definition set_journal (p : option string) (c : Config) : Config :=
  mkConfig p (cfg_editor c) (cfg_encrypt c) (cfg_password c)
    (cfg_tagsymbols c) (cfg_journals c).
Definition set_encrypt (b : bool) (c : Config) : Config :=
  mkConfig (cfg_journal c) (cfg_editor c) b (cfg_password c)
    (cfg_tagsymbols c) (cfg_journals c).
Definition set_password (p : string) (c : Config) : Config :=
  mkConfig (cfg_journal c) (cfg_editor c) (cfg_encrypt c) p
    (cfg_tagsymbols c) (cfg_journals c).
Definition set_journals (js : gmap string JournalConf) (c : Config) : Config :=
  mkConfig (cfg_journal c) (cfg_editor c) (cfg_encrypt c) (cfg_password c)
    (cfg_tagsymbols c) js.

(** [d.update(new)] on a journal-specific dictionary *)
Definition overrides_update (new d : Overrides) : Overrides :=
  mkOverrides
    (from_option Some (o_journal d) (o_journal new))
    (from_option Some (o_editor d) (o_editor new))
    (from_option Some (o_encrypt d) (o_encrypt new))
    (from_option Some (o_password d) (o_password new))
    (from_option Some (o_tagsymbols d) (o_tagsymbols new)).

(** [config.update(new)] on the configuration *)
Definition config_update (new : Overrides) (c : Config) : Config :=
  mkConfig
    (from_option Some (cfg_journal c) (o_journal new))
    (default (cfg_editor c) (o_editor new))
    (default (cfg_encrypt c) (o_encrypt new))
    (default (cfg_password c) (o_password new))
    (default (cfg_tagsymbols c) (o_tagsymbols new))
    (cfg_journals c).

Definition set_entries (es : list Entry) (j : Journal) : Journal :=
  mkJournal es (config j) (key j) (dayone j).
Definition set_config (c : Config) (j : Journal) : Journal :=
  mkJournal (entries j) c (key j) (dayone j).
Definition set_key (k : option string) (j : Journal) : Journal :=
  mkJournal (entries j) (config j) k (dayone j).

Definition set_starred (b : bool) (e : Entry) : Entry :=
  mkEntry (date e) (title e) (body e) (tags e) b.

Definition set_fs (f : gmap string Node) (w : World) : World :=
  mkWorld f (config_file w) (stdin w) (edits w) (out w).

(** ** Primitive effects *)

(** [os.path.exists] and [os.path.isdir] *)
Definition exists_path (p : string) (w : World) : bool :=
  bool_decide (is_Some (fs w !! p)).
Definition isdir (p : string) (w : World) : bool :=
  match fs w !! p with Some Dir => true | _ => false end.

(** [open(p).read()] *)
Definition read_file (p : string) : M string := λ w,
  match fs w !! p with
  | Some (File c) => (Val c, w)
  | _ => (Raise IOError, w)
  end.

(** [open(p, 'w').write(c)] *)
Definition write_file (p c : string) : M unit := λ w,
  match fs w !! p with
  | Some Dir => (Raise IOError, w)
  | _ => (Val tt, set_fs (<[p := File c]> (fs w)) w)
  end.

(** [os.remove(p)] *)
Definition remove_file (p : string) : M unit := λ w,
  match fs w !! p with
  | Some (File _) => (Val tt, set_fs (delete p (fs w)) w)
  | _ => (Raise IOError, w)
  end.

(** A line typed at the terminal in answer to [prompt] ([raw_input],
    [getpass]); an exhausted input is an end of file. *)
Definition read_line (prompt : string) : M string := λ w,
  match stdin w with
  | [] =>
      (Raise EOFError,
       mkWorld (fs w) (config_file w) [] (edits w) (out w ++ [Prompt prompt]))
  | s :: rest =>
      (Val s,
       mkWorld (fs w) (config_file w) rest (edits w) (out w ++ [Prompt prompt]))
  end.

(** [subprocess.call(cmd + [tmpfile])]: an editor session.  What the user
    saves in the session, if anything, is the next element of [edits]. *)
Definition subprocess_call_editor (cmd : list string) (tmpfile : string)
    : M unit := λ w,
  match edits w with
  | Some text :: rest =>
      write_file tmpfile text
        (mkWorld (fs w) (config_file w) (stdin w) rest (out w))
  | None :: rest =>
      (Val tt, mkWorld (fs w) (config_file w) (stdin w) rest (out w))
  | [] => (Val tt, w)
  end.

(** ** The modules behind the front end

    [jrnl.py] imports [Journal], [util], [exporters] and [install], which are
    not part of this development.  Their pure parts are the fields of
    [Externals]; the few methods whose effects matter below are modelled
    after the specification of the store and of the crypto gate. *)

Class Externals := {
  (** [install.module_exists("Crypto")] *)
  PYCRYPTO : bool;
  (** [tempfile.gettempdir()] *)
  gettempdir : string;
  (** [install.install_jrnl(CONFIG_PATH)] and [install.update_config] *)
  install_jrnl : M Config;
  install_update_config : Config → M Config;
  (** the store text format: parsing and serialisation *)
  Journal_parse : Config → string → list Entry;
  Journal_serialize : list Entry → string;
  (** [str(journal)] for a view of the entries, and [str(entry)] *)
  Journal_str : Config → list Entry → string;
  Entry_str : Entry → string;
  (** entry creation from raw text and an optional date expression; it reads
      the clock but changes nothing *)
  Entry_create : Config → string → option string → World → Res Entry;
  (** the filter engine *)
  Journal_filter :
    list string → option string → option string → bool → bool →
    Config → list Entry → Res (list Entry);
  Journal_limit : option Z → list Entry → list Entry;
  (** the crypto gate *)
  derive_key : string → string;
  crypto_encrypt : string → string → string;
  crypto_decrypt : string → string → option string;
  (** the exporters *)
  to_json : Journal → string;
  to_md : Journal → string;
  (** the directory-backed variant of the store *)
  DayOne_entries : Config → gmap string Node → list Entry;
  DayOne_write : Journal → string → gmap string Node → gmap string Node
}.

Section Store.
Context `{Externals}.

(** Entries ordered by timestamp *)
Definition date_le (e1 e2 : Entry) : Prop := (date e1 ≤ date e2)%Z.

#[global] Instance date_le_dec : RelDecision date_le.
Proof. intros e1 e2. unfold date_le. apply _. Defined.

Definition sort_entries (es : list Entry) : list Entry :=
  merge_sort date_le es.

(** Modelled from the spec: [Journal.make_key], which is not among the
    sources.  The key is derived from the password material held in the
    configuration of the store; when none is held the user is asked for a
    password with [prompt]. *)
Definition make_key (prompt : string) (j : Journal) : M Journal :=
  pw ← (if truthy (cfg_password (config j))
        then mret (cfg_password (config j))
        else read_line prompt);
  mret (set_key (Some (derive_key pw)) j).

(** Modelled from the spec: the constructor of [Journal.Journal], which is
    not among the sources (section 4.5, load, and section 4.6).  The file at
    the configured path is read.  Empty content is the empty entry sequence.
    Otherwise, when the encryption flag is set the content goes through the
    decrypt step of the crypto gate, whose failure is fatal; the plain text
    is parsed and the entries are ordered by timestamp.  The wording of the
    password prompt is of no consequence. *)
Definition Journal_open (cfg : Config) : M Journal :=
  match cfg_journal cfg with
  | None => raise TypeError
  | Some path =>
      raw ← read_file path;
      let j := mkJournal [] cfg None false in
      if negb (truthy raw) then mret j
      else if cfg_encrypt cfg then
        j ← make_key "Password: " j;
        match crypto_decrypt (default "" (key j)) raw with
        | Some plain =>
            mret (set_entries (sort_entries (Journal_parse cfg plain)) j)
        | None => raise AuthenticationError
        end
      else mret (set_entries (sort_entries (Journal_parse cfg raw)) j)
  end.

(** Modelled from the spec: the constructor of [Journal.DayOne], the
    directory-of-files variant exposing the same entry sequence. *)
Definition DayOne_open (cfg : Config) : M Journal := λ w,
  (Val (mkJournal (sort_entries (DayOne_entries cfg (fs w))) cfg None true),
   w).

(** Modelled from the spec: [Journal.write] (section 4.5, write).  The
    entries are serialised and persisted at [filename], by default at the
    configured path of the store; when the encryption flag of the store is
    set the text goes through the encrypt step of the crypto gate first. *)
Definition Journal_write (filename : option string) (j : Journal) : M unit :=
  match or_else filename (cfg_journal (config j)) with
  | None => raise TypeError
  | Some filename =>
      if dayone j then
        λ w, (Val tt, set_fs (DayOne_write j filename (fs w)) w)
      else
        let text := Journal_serialize (entries j) in
        write_file filename
          (if cfg_encrypt (config j)
           then crypto_encrypt (default "" (key j)) text
           else text)
  end.

(** Modelled from the spec: [Journal.new_entry] (section 4.5, newEntry).
    The entry is created from the text and the optional date, appended to
    the entries and returned; the journal returned holds it last. *)
Definition Journal_new_entry (raw : string) (date : option string)
    (j : Journal) : M (Journal * Entry) := λ w,
  match Entry_create (config j) raw date w with
  | Val e => (Val (set_entries (entries j ++ [e]) j, e), w)
  | Raise x => (Raise x, w)
  | Exit c => (Exit c, w)
  end.

(** Modelled from the spec: [journal.filter], [journal.limit] and
    [str(journal)] (section 4.4).  The filtered view is derived from the
    entries without changing the store; a date that cannot be resolved
    aborts the operation. *)
Definition Journal_view (tags : list string)
    (start_date end_date : option string) (strict short : bool)
    (limit : option Z) (j : Journal) : M string :=
  match Journal_filter tags start_date end_date strict short
          (config j) (entries j) with
  | Val es => mret (Journal_str (config j) (Journal_limit limit es))
  | Raise x => raise x
  | Exit c => sys_exit c
  end.

(** Modelled from the spec: [install.save_config], which persists the given
    configuration in the configuration file. *)
Definition save_config (c : Config) : M unit := λ w,
  (Val tt, mkWorld (fs w) (Some c) (stdin w) (edits w) (out w)).

(** Modelled from the spec: [util.py23_input], the interactive prompt. *)
Definition py23_input (prompt : string) : M string := read_line prompt.

End Store.

(** ** [guess_mode] *)

(** [word[0] in symbols]; the words produced by [split] are never empty. *)
Definition word0_in (symbols word : string) : bool :=
  match word with
  | String c _ => char_in c symbols
  | "" => false
  end.

(** Guesses the mode (compose, read or export) from the given arguments;
    the result is the pair [(compose, export)]. *)
Definition guess_mode (args : Args) (config : Config) : bool * bool :=
  if a_json args || is_not_False (a_decrypt args)
     || is_not_False (a_encrypt args) || a_markdown args || a_tags args
     || a_delete_last args
  then (false, true)
  else if truthy_opt (a_start_date args) || truthy_opt (a_end_date args)
          || truthy_int (a_limit args) || a_strict args || a_short args
  then (false, false)
  else if negb (truthy_opt (a_date args)) && truthy_list (a_text args)
          && forallb (word0_in (cfg_tagsymbols config))
               (split (join " " (a_text args)))
  then (false, false)
  else (true, false).

Section Frontend.
Context `{Externals}.

(** ** [get_text_from_editor] *)

Definition get_text_from_editor (config : Config) : M string :=
  let tmpfile := os_path_join gettempdir "jrnl" in
  subprocess_call_editor (split (cfg_editor config)) tmpfile;;
  present ← (λ w, (Val (exists_path tmpfile w), w));
  if present : bool then
    raw ← read_file tmpfile;
    remove_file tmpfile;;
    mret raw
  else
    print "[Nothing saved to file]";;
    mret "".

(** ** [encrypt] and [decrypt]

    Both mutate the journal object; they return it as they leave it. *)

Definition encrypt (journal : Journal) (filename : option string)
    : M Journal :=
  let journal := set_config (set_password "" (config journal)) journal in
  journal ← make_key "Enter new password:" journal;
  let journal := set_config (set_encrypt true (config journal)) journal in
  Journal_write filename journal;;
  print ("Journal encrypted to "
         ++ str_opt (or_else filename (cfg_journal (config journal))) ++ ".");;
  mret journal.

Definition decrypt (journal : Journal) (filename : option string)
    : M Journal :=
  let journal := set_config (set_encrypt false (config journal)) journal in
  let journal := set_config (set_password "" (config journal)) journal in
  Journal_write filename journal;;
  print ("Journal decrypted to "
         ++ str_opt (or_else filename (cfg_journal (config journal))) ++ ".");;
  mret journal.

(** ** [touch_journal] *)

(** If [filename] does not exist, touch the file.  A [None] path makes
    [os.path.exists] raise. *)
Definition touch_journal (filename : option string) : M unit :=
  match filename with
  | None => raise TypeError
  | Some filename =>
      present ← (λ w, (Val (exists_path filename w), w));
      if present : bool then mret tt
      else
        print ("[Journal created at " ++ filename ++ "]");;
        write_file filename ""
  end.

(** ** [update_config] *)

(** Updates a configuration with new values, within the journal [scope]
    when that journal has a dictionary of its own and globally otherwise.
    The dictionary is updated in place; the updated one is returned. *)
Definition update_config (config : Config) (new_config : Overrides)
    (scope : string) : M Config :=
  if truthy scope then
    match cfg_journals config !! scope with
    | None => raise KeyError
    | Some (ConfDict d) =>
        mret (set_journals
                (<[scope := ConfDict (overrides_update new_config d)]>
                   (cfg_journals config))
                config)
    | Some (ConfPath _) => mret (config_update new_config config)
    end
  else mret (config_update new_config config).

End Frontend.

(** ** [cli] *)

Section Cli.
Context `{Externals}.

Definition msg_encrypted_no_pycrypto : string :=
  "According to your jrnl_conf, your journal is encrypted, however PyCrypto was not found. To open your journal, install the PyCrypto package from http://www.pycrypto.org.".

Definition msg_no_pycrypto : string :=
  "PyCrypto not found. To encrypt or decrypt your journal, install the PyCrypto package from http://www.pycrypto.org.".

(** [entry.starred = args.star], where [entry] is the object that
    [new_entry] has just appended to the entries of the journal. *)
Definition star_last (b : bool) (j : Journal) : Journal :=
  match pop (entries j) with
  | Some (e, es) => set_entries (es ++ [set_starred b e]) j
  | None => j
  end.

(** The journal named by the first textual argument, when the
    configuration knows it, and ['default'] otherwise; in the first case the
    name is an object of its own ([is not 'default']) and is removed from
    the text. *)
Definition select_journal (args : Args) (config : Config) : string * Args :=
  match a_text args with
  | name :: rest =>
      if bool_decide (is_Some (cfg_journals config !! name))
      then (name, set_text rest args)
      else ("default", args)
  | [] => ("default", args)
  end.

(** The configuration of the selected journal: a dictionary overrides the
    defaults, a string is the path of the journal file. *)
Definition journal_config (journal_name : string) (config : Config)
    : Config :=
  match cfg_journals config !! journal_name with
  | Some (ConfDict d) => config_update d config
  | Some (ConfPath p) => set_journal (Some p) config
  | None => set_journal None config
  end.

(** Lines 181 to 239: composing, reading and the export modes.  The result
    is the journal object as the invocation leaves it. *)
Definition cli_dispatch (config original_config : Config)
    (journal_name : string) (args : Args) (mode_compose mode_export : bool)
    (journal : Journal) : M Journal :=
  '(args, mode_compose) ←
    (if mode_compose && negb (truthy_list (a_text args)) then
       raw ← (if truthy (cfg_editor config) then get_text_from_editor config
              else py23_input "[Compose Entry] ");
       if truthy raw then mret (set_text [raw] args, mode_compose)
       else mret (args, false)
     else mret (args, mode_compose));
  (* Writing mode *)
  if mode_compose : bool then
    let raw := strip (join " " (a_text args)) in
    '(journal, _) ← Journal_new_entry raw (a_date args) journal;
    let journal := star_last (a_star args) journal in
    print ("[Entry added to " ++ journal_name ++ " journal]");;
    Journal_write None journal;;
    mret journal
  (* Reading mode *)
  else if negb mode_export then
    text ← Journal_view (a_text args) (a_start_date args) (a_end_date args)
             (a_strict args) (a_short args) (a_limit args) journal;
    print text;;
    mret journal
  (* Various export modes *)
  else if a_tags args then
    print_tags journal;;
    mret journal
  else if a_json args then
    print (to_json journal);;
    mret journal
  else if a_markdown args then
    print (to_md journal);;
    mret journal
  else if (is_not_False (a_encrypt args) || is_not_False (a_decrypt args))
          && negb PYCRYPTO then
    print msg_no_pycrypto;;
    mret journal
  else if is_not_False (a_encrypt args) then
    journal ← encrypt journal (filename_of (a_encrypt args));
    (* Not encrypting to a separate file: update config! *)
    (if negb (truthy_arg (a_encrypt args)) then
       original_config ←
         update_config original_config
           (mkOverrides None None (Some true) (Some "") None) journal_name;
       save_config original_config
     else mret tt);;
    mret journal
  else if is_not_False (a_decrypt args) then
    journal ← decrypt journal (filename_of (a_decrypt args));
    (* Not decrypting to a separate file: update config! *)
    (if negb (truthy_arg (a_decrypt args)) then
       original_config ←
         update_config original_config
           (mkOverrides None None (Some false) (Some "") None) journal_name;
       save_config original_config
     else mret tt);;
    mret journal
  else if a_delete_last args then
    match pop (entries journal) with
    | None => raise IndexError
    | Some (last_entry, rest) =>
        let journal := set_entries rest journal in
        print "[Deleted Entry:]";;
        print (Entry_str last_entry);;
        Journal_write None journal;;
        mret journal
    end
  else mret journal.

(** Lines 150 to 239: [cli] once the configuration has been read. *)
Definition cli_main (config : Config) (args : Args) : M Journal :=
  let original_config := config in
  (* check if the configuration is supported by available modules *)
  if cfg_encrypt config && negb PYCRYPTO then
    print msg_encrypted_no_pycrypto;;
    sys_exit (-1)
  else
    (* If the first textual argument points to a journal file, use this! *)
    let '(journal_name, args) := select_journal args config in
    let config := journal_config journal_name config in
    touch_journal (cfg_journal config);;
    let '(mode_compose, mode_export) := guess_mode args config in
    (* open journal file or folder *)
    is_dayone ← (λ w,
      (Val (match cfg_journal config with
            | Some path =>
                isdir path w
                && (endswith path ".dayone" || endswith path ".dayone/")
            | None => false
            end), w));
    journal ← (if is_dayone : bool then DayOne_open config
               else Journal_open config);
    cli_dispatch config original_config journal_name args
      mode_compose mode_export journal.

(** [cli]: the configuration is installed on the first run and read from
    the configuration file afterwards; [args] is the result of
    [parse_args]. *)
Definition cli (args : Args) : M unit :=
  config ← (λ w,
    match config_file w with
    | None => install_jrnl w
    | Some config => install_update_config config w
    end);
  cli_main config args;;
  mret tt.

End Cli.

(** * Vocabulary of the properties *)

(** ** The tag report *)

(** The entries whose tag set contains [tag] *)
Definition entries_with (tag : string) (j : Journal) : list Entry :=
  filter (λ entry, tag ∈ tags entry) (entries j).

(** The world after more output *)
Definition add_out (o : list Output) (w : World) : World :=
  mkWorld (fs w) (config_file w) (stdin w) (edits w) (out w ++ o).

(** The line of a row [(n, tag)] of the report *)
Definition row_line (x : nat * string) : Output := Line (format_tag x.2 x.1).

(** The rows of the report, in the order in which they are printed, and the
    notice that precedes them *)
Definition report_rows (j : Journal) : list (nat * string) :=
  sorted (tag_counts_of (all_tags j)).
Definition report_notice (j : Journal) : list Output :=
  match all_tags j with
  | [] => [Line "[No tags found in journal.]"]
  | _ => []
  end.

(** A row comes before another: a lower count, or the same count and a
    smaller tag. *)
Definition row_before (x y : nat * string) : Prop :=
  (x.1 < y.1)%nat ∨ (x.1 = y.1 ∧ String.ltb x.2 y.2 = true).

(** A journal in which [@gym] occurs in one entry and [@work] in three *)
Definition gym_work_journal : Journal :=
  mkJournal
    [ mkEntry 1 "Monday" "@work then @gym" ["@work"; "@gym"] false;
      mkEntry 2 "Tuesday" "@work" ["@work"] false;
      mkEntry 3 "Wednesday" "@work and more @work" ["@work"; "@work"] false ]
    (mkConfig (Some "journal.txt") "" false "" "@" ∅) None false.

(** ** The mode dispatch *)

(** A date expression or a limit is set when the flag was given a value
    that Python holds true: a non-empty string, a number other than zero. *)
Definition is_set (o : option string) : Prop := ∃ s, o = Some s ∧ s ≠ "".
Definition limit_set (o : option Z) : Prop := ∃ z, o = Some z ∧ z ≠ 0%Z.

(** The [--encrypt] or [--decrypt] flag was given, with or without a file
    name. *)
Definition given (a : OptArg) : Prop := a ≠ ArgFalse.

Definition export_flag (args : Args) : Prop :=
  a_json args = true ∨ a_markdown args = true ∨ a_tags args = true
  ∨ given (a_encrypt args) ∨ given (a_decrypt args)
  ∨ a_delete_last args = true.

Definition reading_flag (args : Args) : Prop :=
  is_set (a_start_date args) ∨ is_set (a_end_date args)
  ∨ limit_set (a_limit args) ∨ a_strict args = true ∨ a_short args = true.

(** [word] begins with one of the tag symbols. *)
Definition begins_with_symbol (symbols word : string) : Prop :=
  ∃ c rest, word = String c rest ∧ char_in c symbols = true.

(** No date is given and the text arguments are non-empty and consist of
    tags only. *)
Definition only_tags (args : Args) (config : Config) : Prop :=
  ¬ is_set (a_date args) ∧ a_text args ≠ []
  ∧ Forall (begins_with_symbol (cfg_tagsymbols config))
      (split (join " " (a_text args))).

(** ** A small instance of the modules behind the front end

    The store text format of the instance holds one entry per word; the
    crypto gate prefixes the text with the key. *)

Definition demo_entry (config : Config) (n : Z) (text : string) : Entry :=
  mkEntry n text ""
    (filter (λ word, word0_in (cfg_tagsymbols config) word = true)
       (split text))
    false.

Definition demo_config : Config :=
  mkConfig None "" false "" "@" {[ "default" := ConfPath "journal.txt" ]}.

Definition demo_externals (pycrypto : bool) : Externals := {|
  PYCRYPTO := pycrypto;
  gettempdir := "/tmp";
  install_jrnl := mret demo_config;
  install_update_config := mret;
  Journal_parse := λ config text, demo_entry config 0 <$> split text;
  Journal_serialize := λ es, join " " (title <$> es);
  Journal_str := λ _ es, join ", " (title <$> es);
  Entry_str := title;
  Entry_create := λ config raw _ w,
    if truthy raw then Val (demo_entry config (Z.of_nat (length (out w))) raw)
    else Raise ParseError;
  Journal_filter := λ wanted _ _ _ _ _ es,
    Val (filter (λ e, Forall (λ t, t ∈ tags e) wanted) es);
  Journal_limit := λ n es,
    match n with
    | Some n => drop (length es - Z.to_nat n) es
    | None => es
    end;
  derive_key := λ pw, "key of " ++ pw;
  crypto_encrypt := λ k text, k ++ "|" ++ text;
  crypto_decrypt := λ k cipher,
    if String.prefix (k ++ "|") cipher
    then Some (String.substring (String.length k + 1)
                 (String.length cipher - String.length k - 1) cipher)
    else None;
  to_json := λ j, "[" ++ join ", " (title <$> entries j) ++ "]";
  to_md := λ j, join " " (title <$> entries j);
  DayOne_entries := λ _ _, [];
  DayOne_write := λ _ _ f, f
|}.

(** A world with nothing in it *)
Definition empty_world : World := mkWorld ∅ None [] [] [].

(** No flag and no text *)
Definition no_args : Args :=
  mkArgs None false [] None None false None false false false false
    ArgFalse ArgFalse false.

(** ** The store life cycle *)

(** What [write] stores for a journal kept in a single file: the
    serialised entries, encrypted with the key when the flag is set. *)
Definition stored_text `{Externals} (j : Journal) : string :=
  if cfg_encrypt (config j)
  then crypto_encrypt (default "" (key j)) (Journal_serialize (entries j))
  else Journal_serialize (entries j).

(** The arguments select the delete-last branch of the export modes: the
    flag is given and none of the flags tested before it is. *)
Definition delete_last_requested (args : Args) : Prop :=
  a_tags args = false ∧ a_json args = false ∧ a_markdown args = false
  ∧ a_encrypt args = ArgFalse ∧ a_decrypt args = ArgFalse
  ∧ a_delete_last args = true.

(** The arguments select the decrypt branch. *)
Definition decrypt_requested (args : Args) : Prop :=
  a_tags args = false ∧ a_json args = false ∧ a_markdown args = false
  ∧ a_encrypt args = ArgFalse ∧ given (a_decrypt args).

(** An encrypt or decrypt operation is requested. *)
Definition crypto_requested (args : Args) : Prop :=
  given (a_encrypt args) ∨ given (a_decrypt args).

(** The world once the user has answered [prompt] with the first pending
    line *)
Definition answered (prompt : string) (w : World) : World :=
  mkWorld (fs w) (config_file w) (tail (stdin w)) (edits w)
    (out w ++ [Prompt prompt]).

(** The file system after [touch_journal] *)
Definition touched (filename : option string) (f : gmap string Node)
    : gmap string Node :=
  match filename with
  | Some p => match f !! p with None => <[p := File ""]> f | Some _ => f end
  | None => f
  end.

(** The overrides that [cli] records after a decryption in place *)
Definition decrypted_overrides : Overrides :=
  mkOverrides None None (Some false) (Some "") None.

(** A computation leaves the file system and the saved configuration as
    they are; or the file system as it is except at one path. *)
Definition keeps_files {A} (m : M A) : Prop :=
  ∀ w, fs (m w).2 = fs w ∧ config_file (m w).2 = config_file w.
Definition keeps_files_but {A} (p : string) (m : M A) : Prop :=
  ∀ w, (∀ q, q ≠ p → fs (m w).2 !! q = fs w !! q)
       ∧ config_file (m w).2 = config_file w.

(** The text of a new entry, from the editor when one is configured and
    from the terminal otherwise (lines 182 to 185) *)
Definition compose_text `{Externals} (config : Config) : M string :=
  if truthy (cfg_editor config) then get_text_from_editor config
  else py23_input "[Compose Entry] ".

(** The claim that a request needing the crypto library fails before any
    file is accessed or created: the invocation does not end normally and
    the file system is as before. *)
Definition fails_before_files `{Externals} (config : Config) (args : Args)
    (w : World) : Prop :=
  (∀ j, (cli_main config args w).1 ≠ Val j)
  ∧ fs (cli_main config args w).2 = fs w.

(** ** Sample values *)

(** The configuration of the default journal of [demo_config], as [cli]
    resolves it *)
Definition default_config : Config := journal_config "default" demo_config.

(** A journal of two entries, in a single file and not encrypted, and the
    same journal as an encrypted store holding its password *)
Definition two_entries : list Entry :=
  [ demo_entry default_config 1 "breakfast";
    demo_entry default_config 2 "lunch" ].
Definition plain_journal : Journal :=
  mkJournal two_entries default_config None false.
Definition secret_journal : Journal :=
  mkJournal two_entries
    (set_password "old secret" (set_encrypt true default_config))
    (Some "key of old secret") false.

(** [--delete-last], [--encrypt] and [--decrypt] with nothing else *)
Definition delete_last_args : Args :=
  mkArgs None false [] None None false None false false false false
    ArgFalse ArgFalse true.
Definition encrypt_args : Args :=
  mkArgs None false [] None None false None false false false false
    ArgNone ArgFalse false.
Definition decrypt_args : Args :=
  mkArgs None false [] None None false None false false false false
    ArgFalse ArgNone false.

(** A world whose journal file holds the two entries *)
Definition journal_world : World :=
  mkWorld {[ "journal.txt" := File "breakfast lunch" ]} (Some demo_config)
    [] [] [].

(** ** More vocabulary: the front end beyond the claims *)

(** The temporary file of the editor *)
Definition editor_tmpfile `{Externals} : string :=
  os_path_join gettempdir "jrnl".

(** The arguments with the decrypt and delete-last flags taken away, and
    with the delete-last flag taken away *)
Definition without_decrypt_delete (a : Args) : Args :=
  mkArgs (a_date a) (a_star a) (a_text a) (a_start_date a) (a_end_date a)
    (a_strict a) (a_limit a) (a_short a) (a_tags a) (a_json a)
    (a_markdown a) (a_encrypt a) ArgFalse false.
Definition without_delete (a : Args) : Args :=
  mkArgs (a_date a) (a_star a) (a_text a) (a_start_date a) (a_end_date a)
    (a_strict a) (a_limit a) (a_short a) (a_tags a) (a_json a)
    (a_markdown a) (a_encrypt a) (a_decrypt a) false.

(** The arguments select the encrypt branch. *)
Definition encrypt_requested (args : Args) : Prop :=
  a_tags args = false ∧ a_json args = false ∧ a_markdown args = false
  ∧ given (a_encrypt args).

(** The global keys of two configurations agree. *)
Definition same_global_keys (c1 c2 : Config) : Prop :=
  cfg_journal c1 = cfg_journal c2 ∧ cfg_editor c1 = cfg_editor c2
  ∧ cfg_encrypt c1 = cfg_encrypt c2 ∧ cfg_password c1 = cfg_password c2
  ∧ cfg_tagsymbols c1 = cfg_tagsymbols c2.

(** Two ways in which a later world relates to an earlier one: the
    terminal shows what it showed and possibly more; the saved
    configuration is the same. *)
Definition out_extends (w w' : World) : Prop :=
  ∃ o, out w' = (out w ++ o)%list.
Definition same_config_file (w w' : World) : Prop :=
  config_file w' = config_file w.
Definition quiet (w w' : World) : Prop :=
  out_extends w w' ∧ same_config_file w w'.

(** Every run of a computation takes the world to a related one. *)
Definition steps (R : relation World) {A} (m : M A) : Prop :=
  ∀ w, R w (m w).2.

(** A configuration whose journal [work] has a dictionary of its own *)
Definition work_config : Config :=
  mkConfig None "" true "" "@"
    {[ "default" := ConfPath "journal.txt";
       "work" := ConfDict (mkOverrides (Some "work.txt") None (Some false)
                             None None) ]}.

(** The journal of [gym_work_journal] with its entries in another order
    and no tag repeated within an entry *)
Definition work_gym_journal : Journal :=
  mkJournal
    [ mkEntry 3 "Wednesday" "@work and more @work" ["@work"] false;
      mkEntry 1 "Monday" "@work then @gym" ["@gym"; "@work"] false;
      mkEntry 2 "Tuesday" "@work" ["@work"] false ]
    (mkConfig (Some "journal.txt") "" false "" "@" ∅) None false.

(** * Properties of the tag report *)

Section TagReport.

Implicit Types (j : Journal) (w : World) (t tag : string) (n : nat).

(** *** The order of the report rows *)

#[local] Instance tuple_le_refl : Reflexive tuple_le.
Proof.
  intros [n t]. unfold tuple_le, tuple_leb. simpl.
  rewrite Nat.eqb_refl. simpl.
  assert (String.le t t) as Ht by reflexivity.
  unfold String.le in Ht. destruct (String.leb t t); [|done].
  by rewrite orb_true_r.
Qed.

Lemma tuple_le_spec (x y : nat * string) :
  tuple_le x y ↔ (x.1 < y.1)%nat ∨ (x.1 = y.1 ∧ String.le x.2 y.2).
Proof.
  unfold tuple_le, tuple_leb, String.le.
  rewrite orb_True, andb_True.
  rewrite !Is_true_true, Nat.ltb_lt, Nat.eqb_eq. done.
Qed.

#[local] Instance tuple_le_trans : Transitive tuple_le.
Proof.
  intros x y z. rewrite !tuple_le_spec.
  intros [?|[? ?]] [?|[? ?]]; [left; lia..|].
  right. split; [congruence|]. by etrans.
Qed.

#[local] Instance tuple_le_total : Total tuple_le.
Proof.
  intros x y. rewrite !tuple_le_spec.
  destruct (lt_eq_lt_dec x.1 y.1) as [[?|?]|?]; [by auto| |by auto].
  destruct (total String.le x.2 y.2); auto.
Qed.

Lemma sorted_perm l : sorted l ≡ₚ l.
Proof. apply merge_sort_Permutation. Qed.

Lemma sorted_ascending l : StronglySorted tuple_le (sorted l).
Proof. apply StronglySorted_merge_sort; apply _. Qed.

(** Rows that are pairwise distinct come out in strictly ascending order. *)
Lemma StronglySorted_strict (l : list (nat * string)) :
  NoDup l → StronglySorted tuple_le l → StronglySorted tuple_lt l.
Proof.
  induction 2 as [|x l Hl IH Hx]; [constructor|].
  apply NoDup_cons in H as [Hnotin Hnd].
  constructor; [by apply IH|].
  apply Forall_forall. intros y Hy. split.
  - by eapply Forall_forall in Hx.
  - intros ->. done.
Qed.

(** *** Counting *)

Lemma count_nil t : count t [] = 0.
Proof. done. Qed.

Lemma count_app t (l1 l2 : list string) :
  count t (l1 ++ l2) = count t l1 + count t l2.
Proof. unfold count. by rewrite filter_app, length_app. Qed.

Lemma count_cons t x (l : list string) :
  count t (x :: l) = (if decide (x = t) then 1 else 0) + count t l.
Proof. unfold count. rewrite filter_cons. by case_decide. Qed.

Lemma count_not_elem_of t (l : list string) : t ∉ l → count t l = 0.
Proof.
  induction l as [|x l IH]; [done|].
  rewrite not_elem_of_cons, count_cons. intros [? ?].
  case_decide; [congruence|]. by rewrite IH.
Qed.

Lemma count_pos t (l : list string) : t ∈ l ↔ 0 < count t l.
Proof.
  split.
  - induction 1 as [x l|x y l _ IH]; rewrite count_cons.
    + rewrite decide_True by done. lia.
    + lia.
  - intros Hpos. destruct (decide (t ∈ l)) as [|Hn]; [done|].
    rewrite (count_not_elem_of _ _ Hn) in Hpos. lia.
Qed.

(** A tag counts once in the set of the tags of an entry, however many
    times the entry uses it. *)
Lemma count_remove_dups t (l : list string) :
  count t (remove_dups l) = if decide (t ∈ l) then 1 else 0.
Proof.
  assert (∀ k : list string, NoDup k → t ∈ k → count t k = 1) as Hone.
  { induction 1 as [|x k Hx Hk IH]; [by intros ?%elem_of_nil|].
    rewrite elem_of_cons, count_cons. intros [->|Hin].
    - rewrite decide_True by done. by rewrite count_not_elem_of.
    - rewrite decide_False by (intros ->; done). by rewrite IH. }
  case_decide as Hin.
  - apply Hone; [apply NoDup_remove_dups|by apply elem_of_remove_dups].
  - apply count_not_elem_of. by rewrite elem_of_remove_dups.
Qed.


Lemma count_all_tags t j : count t (all_tags j) = length (entries_with t j).
Proof.
  unfold all_tags, entries_with. induction (entries j) as [|e es IH]; [done|].
  simpl. rewrite count_app, count_remove_dups, IH, filter_cons.
  by case_decide.
Qed.

Lemma elem_of_all_tags t j :
  t ∈ all_tags j ↔ ∃ entry, entry ∈ entries j ∧ t ∈ tags entry.
Proof.
  rewrite count_pos, count_all_tags. unfold entries_with. split.
  - intros Hpos. destruct (filter _ _) as [|e es] eqn:Hf; [simpl in Hpos; lia|].
    assert (e ∈ filter (λ entry, t ∈ tags entry) (entries j)) as He
      by (rewrite Hf; left).
    apply list_elem_of_filter in He as [? ?]. eauto.
  - intros (e & He & Ht).
    assert (e ∈ filter (λ entry, t ∈ tags entry) (entries j)) as Hin
      by by apply list_elem_of_filter.
    destruct (filter _ _); [by apply elem_of_nil in Hin|simpl; lia].
Qed.

Lemma elem_of_tag_counts_of n t (l : list string) :
  (n, t) ∈ tag_counts_of l ↔ t ∈ l ∧ n = count t l.
Proof.
  unfold tag_counts_of. rewrite elem_of_remove_dups, list_elem_of_fmap. split.
  - intros (t' & [= -> ->] & Hin). done.
  - intros [Hin ->]. eauto.
Qed.

Lemma tag_counts_of_pos (l : list string) :
  Forall (λ x, 0 < x.1) (tag_counts_of l).
Proof.
  apply Forall_forall. intros [n t] [Hin ->]%elem_of_tag_counts_of.
  by apply count_pos.
Qed.

Lemma tag_counts_of_nil (l : list string) : tag_counts_of l = [] ↔ l = [].
Proof.
  split; [|by intros ->].
  destruct l as [|t l]; [done|]. intros Hnil.
  assert ((count t (t :: l), t) ∈ tag_counts_of (t :: l)) as Hin.
  { apply elem_of_tag_counts_of. split; [left|done]. }
  rewrite Hnil in Hin. by apply elem_of_nil in Hin.
Qed.

(** *** The minimum is a member *)

Lemma py_min_elem_of x (l : list (nat * string)) : py_min x l ∈ x :: l.
Proof.
  revert x. induction l as [|y l IH]; intros x; simpl; [left|].
  specialize (IH (if tuple_leb x y then x else y)).
  apply elem_of_cons in IH as [->|?].
  - destruct (tuple_leb x y); [left|right; left].
  - by do 2 right.
Qed.

Lemma py_min_lower_bound x (l : list (nat * string)) :
  Forall (tuple_le (py_min x l)) (x :: l).
Proof.
  revert x. induction l as [|y l IH]; intros x; simpl.
  { repeat constructor. reflexivity. }
  specialize (IH (if tuple_leb x y then x else y)).
  apply Forall_cons in IH as [Hm Hl].
  destruct (tuple_leb x y) eqn:Hxy.
  - repeat constructor; [done| |done].
    etrans; [done|]. unfold tuple_le. by rewrite Hxy.
  - repeat constructor; [|done|done].
    etrans; [done|]. destruct (total tuple_le x y) as [Hle|Hle]; [|done].
    unfold tuple_le in Hle. by rewrite Hxy in Hle.
Qed.

(** *** What [print_tags] prints *)

Lemma add_out_nil w : add_out [] w = w.
Proof. destruct w. unfold add_out. simpl. by rewrite app_nil_r. Qed.

Lemma add_out_app o1 o2 w : add_out o2 (add_out o1 w) = add_out (o1 ++ o2) w.
Proof. unfold add_out. simpl. by rewrite app_assoc. Qed.

Lemma print_spec s w : print s w = (Val tt, add_out [Line s] w).
Proof. done. Qed.

Lemma bind_spec {A B} (m : M A) (f : A → M B) w :
  (m ≫= f) w =
  match m w with
  | (Val a, w') => f a w'
  | (Raise e, w') => (Raise e, w')
  | (Exit c, w') => (Exit c, w')
  end.
Proof. done. Qed.

Lemma for_each_print (rows : list (nat * string)) w :
  for_each rows (λ '(n, tag), print (format_tag tag n)) w
  = (Val tt, add_out (row_line <$> rows) w).
Proof.
  revert w. induction rows as [|[n t] rows IH]; intros w; simpl.
  { by rewrite add_out_nil. }
  rewrite bind_spec, print_spec, IH, add_out_app. done.
Qed.

(** The branch that removes the tags counted once is never taken: every
    count is at least one, and so is the least of them. *)
Lemma print_tags_spec j w :
  print_tags j w
  = (Val tt, add_out (report_notice j ++ (row_line <$> report_rows j)) w).
Proof.
  unfold print_tags, report_rows, report_notice.
  pose proof (tag_counts_of_pos (all_tags j)) as Hpos.
  pose proof (tag_counts_of_nil (all_tags j)) as Hnil.
  destruct (tag_counts_of (all_tags j)) as [|x l] eqn:Hc.
  - rewrite (proj1 Hnil eq_refl).
    rewrite !bind_spec, print_spec. done.
  - assert (0 < (py_min x l).1) as Hmin.
    { eapply Forall_forall in Hpos; [done|]. apply py_min_elem_of. }
    destruct (Nat.eqb_spec (py_min x l).1 0) as [|_]; [lia|].
    destruct (all_tags j) as [|t ts].
    { destruct Hnil as [_ Hnil]. discriminate Hnil; done. }
    rewrite bind_spec. simpl. rewrite for_each_print. done.
Qed.

(** *** The rows of the report *)

Lemma report_rows_NoDup j : NoDup (report_rows j).
Proof.
  unfold report_rows. rewrite sorted_perm. apply NoDup_remove_dups.
Qed.

Lemma elem_of_report_rows n t j :
  (n, t) ∈ report_rows j ↔ n = length (entries_with t j) ∧ 0 < n.
Proof.
  unfold report_rows. rewrite sorted_perm, elem_of_tag_counts_of.
  rewrite count_pos, count_all_tags. split; intros [? ?]; subst; done.
Qed.

Lemma tuple_lt_row_before (x y : nat * string) :
  tuple_lt x y → row_before x y.
Proof.
  intros [Hle Hne]. apply tuple_le_spec in Hle as [?|[Heq Hle]]; [by left|].
  right. split; [done|].
  unfold String.le, String.leb in Hle. unfold String.ltb.
  destruct (String.compare x.2 y.2) eqn:Hcmp; [|done..].
  apply String.compare_eq_iff in Hcmp.
  destruct x, y; simpl in *; congruence.
Qed.

Lemma report_rows_ascending j : StronglySorted row_before (report_rows j).
Proof.
  pose proof (StronglySorted_strict _ (report_rows_NoDup j)
                (sorted_ascending _)) as Hs.
  induction Hs as [|x l _ IH Hx]; constructor; [done|].
  eapply Forall_impl; [done|]. apply tuple_lt_row_before.
Qed.

Lemma report_rows_no_tags j :
  (∀ entry, entry ∈ entries j → tags entry = []) → all_tags j = [].
Proof.
  intros Hno. destruct (all_tags j) as [|t ts] eqn:Ht; [done|].
  assert (t ∈ all_tags j) as Hin by (rewrite Ht; left).
  apply elem_of_all_tags in Hin as (e & He & Hte).
  rewrite (Hno e He) in Hte. by apply elem_of_nil in Hte.
Qed.

(** C1 (evaluation of the code at the input of the claim): in a journal
    where [@gym] occurs in one entry and [@work] in three, the report shows
    both tags and no notice; the tag counted once is not suppressed. *)
Theorem print_tags_gym_work w :
  print_tags gym_work_journal w
  = (Val tt,
     add_out [Line "@gym                 : 1"; Line "@work                : 3"] w).
Proof. rewrite print_tags_spec. done. Qed.

(** C2: for every journal, the report holds exactly one row per tag that
    occurs, and the count of a tag is the number of entries whose tag set
    contains it: within one entry a tag counts once however often the entry
    uses it, and the counts of the entries are added up. *)
Theorem print_tags_counts_entries j w :
  print_tags j w
  = (Val tt, add_out (report_notice j ++ (row_line <$> report_rows j)) w)
  ∧ NoDup (report_rows j)
  ∧ (∀ n tag,
       (n, tag) ∈ report_rows j ↔ n = length (entries_with tag j) ∧ 0 < n)
  ∧ (∀ tag entry,
       count tag (remove_dups (tags entry))
       = if decide (tag ∈ tags entry) then 1 else 0)
  ∧ (∀ tag entry es,
       entries j = entry :: es →
       count tag (all_tags j)
       = count tag (remove_dups (tags entry))
         + count tag (all_tags (set_entries es j))).
Proof.
  split; [apply print_tags_spec|].
  split; [apply report_rows_NoDup|].
  split; [intros; apply elem_of_report_rows|].
  split; [intros; apply count_remove_dups|].
  intros tag entry es Hes. unfold all_tags. rewrite Hes. simpl.
  by rewrite count_app.
Qed.

(** C8: for every journal, the rows of the report are printed in strictly
    ascending order of (count, tag), lowest counts first and equal counts by
    the order of the tag strings; for a journal without any tag the report
    is the notice that no tags were found and nothing else. *)
Theorem print_tags_ascending j w :
  print_tags j w
  = (Val tt, add_out (report_notice j ++ (row_line <$> report_rows j)) w)
  ∧ StronglySorted row_before (report_rows j)
  ∧ ((∀ entry, entry ∈ entries j → tags entry = []) →
     print_tags j w
     = (Val tt, add_out [Line "[No tags found in journal.]"] w)).
Proof.
  split; [apply print_tags_spec|].
  split; [apply report_rows_ascending|].
  intros Hno%report_rows_no_tags. rewrite print_tags_spec.
  unfold report_notice, report_rows. by rewrite Hno.
Qed.

(** X1: [print_tags] never removes a tag from the report.  For every
    journal, what it prints is the rows of all the tags, preceded by the
    notice that no tags were found when there are none; a tag that occurs
    in a single entry has its row, with the count 1, and the notice of a
    removal is never printed. *)
Lemma print_tags_never_suppresses j w :
  out (print_tags j w).2
  = (out w ++ report_notice j ++ (row_line <$> report_rows j))%list
  ∧ (∀ tag,
       tag ∈ all_tags j → (length (entries_with tag j), tag) ∈ report_rows j)
  ∧ (∀ tag, length (entries_with tag j) = 1 → (1, tag) ∈ report_rows j)
  ∧ Line "[Removed tags that appear only once.]" ∉ report_notice j.
Proof.
  split; [by rewrite print_tags_spec|]. split; [|split].
  - intros tag Hin. apply elem_of_report_rows. split; [done|].
    rewrite <-count_all_tags. by apply count_pos.
  - intros tag Hone. apply elem_of_report_rows. lia.
  - unfold report_notice. destruct (all_tags j).
    + by intros [=]%list_elem_of_singleton.
    + apply not_elem_of_nil.
Qed.

End TagReport.

(** * Properties of the mode dispatch *)

Section Mode.

Implicit Types (args : Args) (config : Config).

Lemma truthy_spec (s : string) : truthy s = true ↔ s ≠ "".
Proof. by destruct s. Qed.

Lemma truthy_opt_is_set (o : option string) : truthy_opt o = true ↔ is_set o.
Proof.
  unfold is_set. destruct o as [s|]; simpl.
  - rewrite truthy_spec. split; [eauto|]. by intros (? & [= ->] & ?).
  - split; [done|]. by intros (? & ? & ?).
Qed.

Lemma truthy_int_limit_set (o : option Z) : truthy_int o = true ↔ limit_set o.
Proof.
  unfold limit_set. destruct o as [z|]; simpl.
  - rewrite negb_true_iff, Z.eqb_neq. split; [eauto|].
    by intros (? & [= ->] & ?).
  - split; [done|]. by intros (? & ? & ?).
Qed.

Lemma is_not_False_given (a : OptArg) : is_not_False a = true ↔ given a.
Proof. unfold given. by destruct a. Qed.

Lemma truthy_list_spec {A} (l : list A) : truthy_list l = true ↔ l ≠ [].
Proof. by destruct l. Qed.

Lemma word0_in_spec (symbols word : string) :
  word0_in symbols word = true ↔ begins_with_symbol symbols word.
Proof.
  unfold begins_with_symbol. destruct word as [|c rest]; simpl.
  - split; [done|]. by intros (? & ? & ? & ?).
  - split; [eauto|]. by intros (? & ? & [= -> ->] & ?).
Qed.

Lemma forallb_word0_in (symbols : string) (words : list string) :
  forallb (word0_in symbols) words = true
  ↔ Forall (begins_with_symbol symbols) words.
Proof.
  rewrite forallb_forall, Forall_forall.
  setoid_rewrite <-list_elem_of_In. by setoid_rewrite word0_in_spec.
Qed.

(** The three tests of [guess_mode] *)
Lemma export_test args :
  a_json args || is_not_False (a_decrypt args)
  || is_not_False (a_encrypt args) || a_markdown args || a_tags args
  || a_delete_last args = true
  ↔ export_flag args.
Proof.
  unfold export_flag. rewrite !orb_true_iff, !is_not_False_given. tauto.
Qed.

Lemma reading_test args :
  truthy_opt (a_start_date args) || truthy_opt (a_end_date args)
  || truthy_int (a_limit args) || a_strict args || a_short args = true
  ↔ reading_flag args.
Proof.
  unfold reading_flag.
  rewrite !orb_true_iff, !truthy_opt_is_set, truthy_int_limit_set. tauto.
Qed.

Lemma only_tags_test args config :
  negb (truthy_opt (a_date args)) && truthy_list (a_text args)
  && forallb (word0_in (cfg_tagsymbols config))
       (split (join " " (a_text args))) = true
  ↔ only_tags args config.
Proof.
  unfold only_tags.
  rewrite !andb_true_iff, negb_true_iff, truthy_list_spec, forallb_word0_in.
  rewrite <-truthy_opt_is_set, not_true_iff_false. tauto.
Qed.

(** Compose mode and export mode exclude each other. *)
Lemma guess_mode_compose_not_export args config :
  (guess_mode args config).1 = true → (guess_mode args config).2 = false.
Proof.
  unfold guess_mode.
  destruct (_ || a_delete_last args); simpl; [done|].
  destruct (_ || a_short args); simpl; [done|].
  by destruct (_ && forallb _ _).
Qed.

(** C10: export mode is chosen exactly when one of the json, markdown,
    tags, encrypt, decrypt or delete-last flags is given, and compose is
    then off; otherwise compose is off exactly when a reading flag (start
    date, end date, limit, strict, short) is set, or no date is given and
    the text arguments are non-empty and every whitespace-separated word of
    them begins with a configured tag symbol. *)
Theorem guess_mode_dispatch args config :
  ((guess_mode args config).2 = true ↔ export_flag args)
  ∧ ((guess_mode args config).2 = true → (guess_mode args config).1 = false)
  ∧ ((guess_mode args config).2 = false →
     ((guess_mode args config).1 = false
      ↔ reading_flag args ∨ only_tags args config)).
Proof.
  pose proof (export_test args) as He.
  pose proof (reading_test args) as Hr.
  pose proof (only_tags_test args config) as Ht.
  unfold guess_mode.
  destruct (_ || a_delete_last args); simpl; [intuition congruence|].
  destruct (_ || a_short args); simpl; [intuition congruence|].
  destruct (_ && forallb _ _); simpl; intuition congruence.
Qed.

End Mode.

(** * Properties of the store life cycle *)

Section Lifecycle.
Context `{Externals}.

Implicit Types (j journal : Journal) (w : World) (cfg config : Config)
  (args : Args) (path : string).

(** Unfolding of the monad *)
Ltac run :=
  repeat (unfold mbind, M_bind, bind, mret, M_ret, ret, raise, sys_exit;
          simpl).

(** ** Loading a store *)

Lemma touch_journal_missing path w :
  fs w !! path = None →
  touch_journal (Some path) w
  = (Val tt,
     set_fs (<[path := File ""]> (fs w))
       (add_out [Line ("[Journal created at " ++ path ++ "]")] w)).
Proof.
  intros Hno. unfold touch_journal, exists_path, write_file. run.
  rewrite Hno. rewrite bool_decide_eq_false_2 by (by intros [? ?]).
  simpl. by rewrite Hno.
Qed.

Lemma touch_journal_present path w :
  is_Some (fs w !! path) → touch_journal (Some path) w = (Val tt, w).
Proof.
  intros Hsome. unfold touch_journal, exists_path. run.
  by rewrite bool_decide_eq_true_2.
Qed.

Lemma Journal_open_empty cfg path w :
  cfg_journal cfg = Some path →
  fs w !! path = Some (File "") →
  Journal_open cfg w = (Val (mkJournal [] cfg None false), w).
Proof.
  intros Hp Hf. unfold Journal_open, read_file. rewrite Hp. run.
  by rewrite Hf.
Qed.


(** The entries of a freshly opened journal are in timestamp order. *)
Lemma sort_entries_sorted (es : list Entry) :
  StronglySorted date_le (sort_entries es).
Proof.
  apply StronglySorted_merge_sort.
  - intros e1 e2 e3. unfold date_le. lia.
  - intros e1 e2. unfold date_le. lia.
Qed.

Lemma Journal_open_sorted cfg w j w' :
  Journal_open cfg w = (Val j, w') → StronglySorted date_le (entries j).
Proof.
  unfold Journal_open. destruct (cfg_journal cfg) as [path|]; [|done].
  rewrite bind_spec. destruct (read_file path w) as [[raw| |] w1]; [|done..].
  destruct (negb (truthy raw)); [intros [= <- _]; constructor|].
  destruct (cfg_encrypt cfg).
  - rewrite bind_spec. destruct (make_key _ _ w1) as [[j1| |] w2]; [|done..].
    destruct (crypto_decrypt _ _); [|done].
    intros [= <- _]. apply sort_entries_sorted.
  - intros [= <- _]. apply sort_entries_sorted.
Qed.

Lemma DayOne_open_sorted cfg w j w' :
  DayOne_open cfg w = (Val j, w') → StronglySorted date_le (entries j).
Proof. intros [= <- _]. apply sort_entries_sorted. Qed.

(** ** Writing a store *)

Lemma Journal_write_file filename j path w :
  dayone j = false →
  or_else filename (cfg_journal (config j)) = Some path →
  fs w !! path ≠ Some Dir →
  Journal_write filename j w
  = (Val tt, set_fs (<[path := File (stored_text j)]> (fs w)) w).
Proof.
  intros Hd Hp Hf. unfold Journal_write, write_file, stored_text.
  rewrite Hp, Hd. by destruct (fs w !! path) as [[]|].
Qed.

(** ** Deleting the last entry *)

Lemma pop_snoc {A} (l : list A) (x : A) : pop (l ++ [x])%list = Some (x, l).
Proof. unfold pop. by rewrite last_snoc, removelast_last. Qed.

Lemma StronglySorted_snoc_bound (es : list Entry) (e : Entry) :
  StronglySorted date_le (es ++ [e])%list → Forall (λ e', date_le e' e) es.
Proof.
  induction es as [|e' es IH]; [constructor|].
  simpl. intros [Hs Hall]%StronglySorted_inv. constructor; [|by apply IH].
  eapply Forall_forall in Hall; [done|]. apply elem_of_app. right. left.
Qed.

(** C4: when the store is not empty, delete-last takes the last entry out
    of the entries, shows it, and rewrites the store through [write]
    without it (for a journal kept in a file, the file then holds the
    remaining entries); that entry is the chronologically last one of a
    store kept in timestamp order.  On the empty store the operation fails
    with the error of [pop] on an empty list, [IndexError], and the world,
    hence the file of the journal, is as before. *)
Theorem delete_last_removes_last cfg original_config name args journal w :
  delete_last_requested args →
  (∀ (es : list Entry) (last_entry : Entry),
     entries journal = (es ++ [last_entry])%list →
     cli_dispatch cfg original_config name args
       (guess_mode args cfg).1 (guess_mode args cfg).2 journal w
     = (print "[Deleted Entry:]";;
        print (Entry_str last_entry);;
        Journal_write None (set_entries es journal);;
        mret (set_entries es journal)) w
     ∧ (StronglySorted date_le (entries journal) →
        Forall (λ e, date_le e last_entry) es)
     ∧ (∀ path,
          dayone journal = false →
          cfg_journal (config journal) = Some path →
          fs w !! path ≠ Some Dir →
          cli_dispatch cfg original_config name args
            (guess_mode args cfg).1 (guess_mode args cfg).2 journal w
          = (Val (set_entries es journal),
             set_fs
               (<[path := File (stored_text (set_entries es journal))]> (fs w))
               (add_out [Line "[Deleted Entry:]"; Line (Entry_str last_entry)]
                  w))))
  ∧ (entries journal = [] →
     cli_dispatch cfg original_config name args
       (guess_mode args cfg).1 (guess_mode args cfg).2 journal w
     = (Raise IndexError, w)).
Proof.
  intros (Ht & Hj & Hm & He & Hd & Hl).
  unfold cli_dispatch, guess_mode. rewrite Ht, Hj, Hm, He, Hd, Hl. simpl.
  rewrite bind_spec. simpl. rewrite Ht, Hj, Hm, He, Hd, Hl. simpl. split.
  - intros es last_entry Hes. rewrite Hes, pop_snoc.
    split; [done|]. split; [apply StronglySorted_snoc_bound|].
    intros path Hday Hpath Hdir.
    rewrite bind_spec, print_spec, bind_spec, print_spec, bind_spec.
    rewrite (Journal_write_file _ _ path) by done.
    rewrite add_out_app. done.
  - intros ->. done.
Qed.

(** ** Encrypting *)

Lemma make_key_asks prompt j pw (rest : list string) w :
  cfg_password (config j) = "" →
  stdin w = pw :: rest →
  make_key prompt j w
  = (Val (set_key (Some (derive_key pw)) j), answered prompt w).
Proof.
  intros Hpw Hin. unfold make_key, read_line, answered. rewrite Hpw. run.
  by rewrite Hin.
Qed.

Lemma make_key_end_of_input prompt j w :
  cfg_password (config j) = "" →
  stdin w = [] →
  make_key prompt j w = (Raise EOFError, answered prompt w).
Proof.
  intros Hpw Hin. unfold make_key, read_line, answered. rewrite Hpw. run.
  by rewrite Hin.
Qed.

(** C6: whatever password material and key the journal holds, [encrypt]
    asks for a new password, derives the key from the answer alone, sets
    the encryption flag and rewrites the store through [write]; for a
    journal kept in a file, that file then holds the entries encrypted
    with the new key.  The password and the key held before make no
    difference to the outcome. *)
Theorem encrypt_asks_new_password journal filename pw (rest : list string) w :
  stdin w = pw :: rest →
  let journal' :=
    mkJournal (entries journal)
      (set_encrypt true (set_password "" (config journal)))
      (Some (derive_key pw)) (dayone journal) in
  let asked := answered "Enter new password:" w in
  encrypt journal filename w
  = (Journal_write filename journal';;
     print ("Journal encrypted to "
            ++ str_opt (or_else filename (cfg_journal (config journal)))
            ++ ".");;
     mret journal') asked
  ∧ out asked = (out w ++ [Prompt "Enter new password:"])%list
  ∧ (∀ path,
       dayone journal = false →
       or_else filename (cfg_journal (config journal)) = Some path →
       fs w !! path ≠ Some Dir →
       encrypt journal filename w
       = (Val journal',
          add_out [Line ("Journal encrypted to " ++ path ++ ".")]
            (set_fs
               (<[path :=
                    File (crypto_encrypt (derive_key pw)
                            (Journal_serialize (entries journal)))]> (fs w))
               asked)))
  ∧ (∀ held_password held_key,
       encrypt
         (mkJournal (entries journal)
            (set_password held_password (config journal)) held_key
            (dayone journal))
         filename w
       = encrypt journal filename w).
Proof.
  intros Hin journal' asked.
  assert (encrypt journal filename w
          = (Journal_write filename journal';;
             print ("Journal encrypted to "
                    ++ str_opt (or_else filename (cfg_journal (config journal)))
                    ++ ".");;
             mret journal') asked) as Heq.
  { unfold encrypt. rewrite bind_spec.
    rewrite (make_key_asks _ _ pw rest) by done. done. }
  split; [done|]. split; [done|]. split.
  - intros path Hd Hp Hf. rewrite Heq, bind_spec.
    rewrite (Journal_write_file _ _ path) by done.
    rewrite Hp. done.
  - intros held_password held_key. rewrite Heq.
    unfold encrypt. rewrite bind_spec.
    rewrite (make_key_asks _ _ pw rest) by done. done.
Qed.

(** Without an answer nothing is written. *)
Lemma encrypt_end_of_input journal filename w :
  stdin w = [] →
  encrypt journal filename w
  = (Raise EOFError, answered "Enter new password:" w).
Proof.
  intros Hin. unfold encrypt. rewrite bind_spec.
  by rewrite make_key_end_of_input.
Qed.

(** ** Decrypting *)

(** After [update_config] with these overrides the configuration of the
    journal [name], as [cli] resolves it, has the flag and the password
    cleared. *)
Lemma update_config_clears original_config name saved w w' :
  truthy name = true →
  update_config original_config decrypted_overrides name w = (Val saved, w') →
  cfg_encrypt (journal_config name saved) = false
  ∧ cfg_password (journal_config name saved) = "".
Proof.
  intros Hname. unfold update_config. rewrite Hname.
  destruct (cfg_journals original_config !! name) as [[p|d]|] eqn:Hj;
    [| |done].
  - intros [= <- _]. unfold journal_config. simpl. by rewrite Hj.
  - intros [= <- _]. unfold journal_config. simpl.
    by rewrite lookup_insert_eq.
Qed.

Lemma update_config_world original_config new name w :
  (update_config original_config new name w).2 = w.
Proof.
  unfold update_config. destruct (truthy name); [|done].
  by destruct (cfg_journals original_config !! name) as [[p|d]|].
Qed.

Lemma Journal_write_config_file filename j w :
  config_file (Journal_write filename j w).2 = config_file w.
Proof.
  unfold Journal_write, write_file.
  destruct (or_else _ _) as [f|]; [|done].
  destruct (dayone j); [done|]. by destruct (fs w !! f) as [[]|].
Qed.

Lemma decrypt_spec journal filename w :
  let journal' :=
    set_config (set_password "" (set_encrypt false (config journal))) journal in
  decrypt journal filename w
  = (Journal_write filename journal';;
     print ("Journal decrypted to "
            ++ str_opt (or_else filename (cfg_journal (config journal)))
            ++ ".");;
     mret journal') w.
Proof. done. Qed.

Lemma decrypt_config_file journal filename w :
  config_file (decrypt journal filename w).2 = config_file w.
Proof.
  rewrite decrypt_spec. rewrite bind_spec.
  pose proof (Journal_write_config_file filename
    (set_config (set_password "" (set_encrypt false (config journal))) journal)
    w) as Hw.
  destruct (Journal_write _ _ w) as [[[]| |] w1]; simpl in *; done.
Qed.

Lemma decrypt_result journal filename w j' w' :
  decrypt journal filename w = (Val j', w') →
  j' = set_config (set_password "" (set_encrypt false (config journal))) journal.
Proof.
  rewrite decrypt_spec, bind_spec.
  destruct (Journal_write _ _ w) as [[[]| |] w1]; [|done..].
  by intros [= <- _].
Qed.


(** ** What leaves the files alone *)

Lemma keeps_files_ret {A} (a : A) : keeps_files (mret a : M A).
Proof. done. Qed.

Lemma keeps_files_raise {A} e : keeps_files (raise e : M A).
Proof. done. Qed.

Lemma keeps_files_bind {A B} (m : M A) (f : A → M B) :
  keeps_files m → (∀ a, keeps_files (f a)) → keeps_files (m ≫= f).
Proof.
  intros Hm Hf w. rewrite bind_spec. specialize (Hm w).
  destruct (m w) as [[a| |] w1]; simpl in *; [|done..].
  destruct (Hf a w1) as [-> ->]. done.
Qed.

Lemma keeps_files_if {A} (b : bool) (m1 m2 : M A) :
  keeps_files m1 → keeps_files m2 → keeps_files (if b then m1 else m2).
Proof. by destruct b. Qed.

Lemma keeps_files_print s : keeps_files (print s).
Proof. done. Qed.

Lemma keeps_files_read_line prompt : keeps_files (read_line prompt).
Proof. intros w. unfold read_line. by destruct (stdin w). Qed.

Lemma keeps_files_print_tags j : keeps_files (print_tags j).
Proof. intros w. by rewrite print_tags_spec. Qed.

Lemma keeps_files_read_file path : keeps_files (read_file path).
Proof. intros w. unfold read_file. by destruct (fs w !! path) as [[]|]. Qed.

Create HintDb frame discriminated.
#[local] Hint Resolve keeps_files_ret keeps_files_raise keeps_files_bind
  keeps_files_if keeps_files_print keeps_files_read_line
  keeps_files_print_tags keeps_files_read_file : frame.

Lemma keeps_files_make_key prompt j : keeps_files (make_key prompt j).
Proof. unfold make_key. auto with frame. Qed.

#[local] Hint Resolve keeps_files_make_key : frame.

Lemma keeps_files_Journal_open cfg : keeps_files (Journal_open cfg).
Proof.
  unfold Journal_open. destruct (cfg_journal cfg); [|auto with frame].
  apply keeps_files_bind; [auto with frame|]. intros raw.
  repeat apply keeps_files_if; auto with frame.
  apply keeps_files_bind; [auto with frame|]. intros j.
  destruct (crypto_decrypt _ _); auto with frame.
Qed.

Lemma keeps_files_DayOne_open cfg : keeps_files (DayOne_open cfg).
Proof. done. Qed.

Lemma keeps_files_Journal_view ts sd ed st sh lim j :
  keeps_files (Journal_view ts sd ed st sh lim j).
Proof. unfold Journal_view. by destruct (Journal_filter _ _ _ _ _ _ _). Qed.

#[local] Hint Resolve keeps_files_Journal_open keeps_files_DayOne_open
  keeps_files_Journal_view : frame.

Lemma keeps_files_but_editor cfg :
  keeps_files_but (os_path_join gettempdir "jrnl") (get_text_from_editor cfg).
Proof.
  intros w. unfold get_text_from_editor.
  set (tmpfile := os_path_join gettempdir "jrnl").
  rewrite bind_spec.
  assert (∀ q, q ≠ tmpfile →
            fs (subprocess_call_editor (split (cfg_editor cfg)) tmpfile w).2
              !! q = fs w !! q) as Hfs.
  { intros q Hq. unfold subprocess_call_editor, write_file.
    destruct (edits w) as [|[text|] rest]; simpl; [done| |done].
    destruct (fs w !! tmpfile) as [[]|]; simpl; [|done|];
      by rewrite lookup_insert_ne. }
  assert (config_file
            (subprocess_call_editor (split (cfg_editor cfg)) tmpfile w).2
          = config_file w) as Hcf.
  { unfold subprocess_call_editor, write_file.
    destruct (edits w) as [|[text|] rest]; simpl; [done| |done].
    by destruct (fs w !! tmpfile) as [[]|]. }
  destruct (subprocess_call_editor _ _ w) as [[[]| |] w1]; simpl in *;
    [|done..].
  rewrite bind_spec. simpl. destruct (exists_path tmpfile w1).
  - rewrite bind_spec. unfold read_file.
    destruct (fs w1 !! tmpfile) as [[c|]|] eqn:Hf; simpl; [|done..].
    rewrite bind_spec. unfold remove_file. rewrite Hf. simpl.
    split; [|done]. intros q Hq. rewrite lookup_delete_ne by done. auto.
  - done.
Qed.

(** ** Composing with no text *)

(** C9: in compose mode, when the text obtained from the editor or from
    the prompt is empty, the invocation turns into a plain reading of the
    journal: no entry is created, the journal object keeps its entries,
    [write] is not called, and the files other than the temporary file of
    the editor, the journal among them, are as before. *)
Theorem compose_empty_text_keeps_store cfg original_config name args journal
    w w1 :
  (guess_mode args cfg).1 = true →
  a_text args = [] →
  compose_text cfg w = (Val "", w1) →
  let result :=
    cli_dispatch cfg original_config name args
      (guess_mode args cfg).1 (guess_mode args cfg).2 journal w in
  result
  = (text ← Journal_view [] (a_start_date args) (a_end_date args)
             (a_strict args) (a_short args) (a_limit args) journal;
     print text;;
     mret journal) w1
  ∧ (∀ j', result.1 = Val j' → j' = journal)
  ∧ fs result.2 = fs w1
  ∧ config_file result.2 = config_file w
  ∧ (∀ p, p ≠ os_path_join gettempdir "jrnl" → fs result.2 !! p = fs w !! p).
Proof.
  intros Hc Htext Hraw result.
  pose proof (guess_mode_compose_not_export _ _ Hc) as He.
  assert (result
          = (text ← Journal_view [] (a_start_date args) (a_end_date args)
                     (a_strict args) (a_short args) (a_limit args) journal;
             print text;;
             mret journal) w1) as Heq.
  { unfold result, cli_dispatch. rewrite Hc, He, Htext. simpl.
    rewrite bind_spec. fold (compose_text cfg).
    rewrite bind_spec, Hraw. simpl. by rewrite Htext. }
  assert (fs w1 = fs w1 ∧ config_file w1 = config_file w
          ∧ ∀ p, p ≠ os_path_join gettempdir "jrnl" → fs w1 !! p = fs w !! p)
    as (_ & Hcf & Hfs).
  { unfold compose_text in Hraw. destruct (truthy (cfg_editor cfg)).
    - destruct (keeps_files_but_editor cfg w) as [Hq Hcf].
      rewrite Hraw in Hq, Hcf. done.
    - destruct (keeps_files_read_line "[Compose Entry] " w) as [Hq Hcf].
      unfold py23_input in Hraw. rewrite Hraw in Hq, Hcf. simpl in *.
      by rewrite Hq. }
  assert (keeps_files
            (text ← Journal_view [] (a_start_date args) (a_end_date args)
                      (a_strict args) (a_short args) (a_limit args) journal;
             print text;;
             mret journal)) as Hk.
  { auto with frame. }
  destruct (Hk w1) as [Hk1 Hk2].
  split; [done|]. rewrite Heq. split.
  - rewrite bind_spec. destruct (Journal_view _ _ _ _ _ _ _ w1) as [[t| |] w2];
      simpl; [|done..]. by intros j' [= <-].
  - split; [done|]. split; [congruence|].
    intros p Hp. rewrite Hk1. by apply Hfs.
Qed.

(** ** Requests that need the crypto library *)

Lemma touch_journal_files filename w :
  fs (touch_journal filename w).2 = touched filename (fs w)
  ∧ config_file (touch_journal filename w).2 = config_file w.
Proof.
  destruct filename as [path|]; [|done]. unfold touched.
  destruct (fs w !! path) as [n|] eqn:Hp.
  - by rewrite touch_journal_present by (by rewrite Hp).
  - by rewrite touch_journal_missing.
Qed.

(** Without the crypto library, a request to encrypt or to decrypt ends in
    one of the four branches that write nothing. *)
Lemma cli_dispatch_no_pycrypto cfg original_config name args journal w :
  PYCRYPTO = false →
  crypto_requested args →
  cli_dispatch cfg original_config name args false true journal w
  = (if a_tags args then print_tags journal;; mret journal
     else if a_json args then print (to_json journal);; mret journal
     else if a_markdown args then print (to_md journal);; mret journal
     else print msg_no_pycrypto;; mret journal) w.
Proof.
  intros Hpy Hreq. unfold cli_dispatch. simpl. rewrite bind_spec. simpl.
  assert (is_not_False (a_encrypt args) || is_not_False (a_decrypt args)
          = true) as Hor.
  { apply orb_true_iff. by rewrite !is_not_False_given. }
  rewrite Hor, Hpy. simpl.
  by destruct (a_tags args), (a_json args), (a_markdown args).
Qed.

Lemma guess_mode_crypto_requested args cfg :
  crypto_requested args → guess_mode args cfg = (false, true).
Proof.
  intros Hreq. unfold guess_mode.
  assert (is_not_False (a_decrypt args) = true
          ∨ is_not_False (a_encrypt args) = true) as Hor.
  { rewrite !is_not_False_given. destruct Hreq; auto. }
  destruct (a_json args); simpl; [done|].
  destruct Hor as [-> | ->]; simpl; [done|].
  by destruct (is_not_False (a_decrypt args)).
Qed.

Lemma select_journal_flags args cfg :
  crypto_requested args → crypto_requested (select_journal args cfg).2.
Proof.
  unfold select_journal. destruct (a_text args) as [|t rest]; [done|].
  by destruct (bool_decide _).
Qed.


End Lifecycle.

(** * The properties at sample values *)

(** A limit of zero and an empty start date are not signs of reading: the
    mode stays compose. *)
Example guess_mode_limit_zero :
  guess_mode
    (mkArgs None false [] None None false (Some 0%Z) false false false false
       ArgFalse ArgFalse false) demo_config
  = (true, false).
Proof. reflexivity. Qed.

Example guess_mode_empty_start_date :
  guess_mode
    (mkArgs None false [] (Some "") None false None false false false false
       ArgFalse ArgFalse false) demo_config
  = (true, false).
Proof. reflexivity. Qed.

(** Tags only: reading; a bare [--decrypt]: export. *)
Example guess_mode_only_tags :
  guess_mode
    (mkArgs None false ["@work"; "@gym  @home"] None None false None false
       false false false ArgFalse ArgFalse false) demo_config
  = (false, false).
Proof. reflexivity. Qed.

Example guess_mode_decrypt :
  guess_mode decrypt_args demo_config = (false, true).
Proof. reflexivity. Qed.

(** Whole invocations: deleting the last of two entries, deleting from an
    empty journal, composing an entry given on the command line, and the
    tag report. *)
Example cli_delete_last :
  cli (H := demo_externals true) delete_last_args journal_world
  = (Val tt,
     mkWorld {[ "journal.txt" := File "breakfast" ]} (Some demo_config)
       [] [] [Line "[Deleted Entry:]"; Line "lunch"]).
Proof. vm_compute. reflexivity. Qed.

Example cli_delete_last_empty :
  cli (H := demo_externals true) delete_last_args
    (mkWorld {[ "journal.txt" := File "" ]} (Some demo_config) [] [] [])
  = (Raise IndexError,
     mkWorld {[ "journal.txt" := File "" ]} (Some demo_config) [] [] []).
Proof. vm_compute. reflexivity. Qed.

Example cli_compose :
  cli (H := demo_externals true)
    (mkArgs None false ["dinner"; "with"; "@Jane"] None None false None
       false false false false ArgFalse ArgFalse false)
    journal_world
  = (Val tt,
     mkWorld {[ "journal.txt" := File "breakfast lunch dinner with @Jane" ]}
       (Some demo_config) [] [] [Line "[Entry added to default journal]"]).
Proof. vm_compute. reflexivity. Qed.

Example cli_tags :
  cli (H := demo_externals true)
    (mkArgs None false [] None None false None false true false false
       ArgFalse ArgFalse false)
    (mkWorld {[ "journal.txt" := File "@work @gym @work" ]}
       (Some demo_config) [] [] [])
  = (Val tt,
     mkWorld {[ "journal.txt" := File "@work @gym @work" ]}
       (Some demo_config) [] []
       [Line "@gym                 : 1"; Line "@work                : 2"]).
Proof. vm_compute. reflexivity. Qed.

Lemma delete_last_removes_last_witness :
  delete_last_requested delete_last_args
  ∧ cli_dispatch (H := demo_externals true) default_config demo_config
      "default" delete_last_args false true plain_journal journal_world
    = (Val (mkJournal [demo_entry default_config 1 "breakfast"]
              default_config None false),
       mkWorld {[ "journal.txt" := File "breakfast" ]} (Some demo_config)
         [] [] [Line "[Deleted Entry:]"; Line "lunch"])
  ∧ cli_dispatch (H := demo_externals true) default_config demo_config
      "default" delete_last_args false true
      (mkJournal [] default_config None false) journal_world
    = (Raise IndexError, journal_world).
Proof.
  assert (delete_last_requested delete_last_args) as Hreq by (repeat split).
  split; [exact Hreq|].
  destruct (delete_last_removes_last (H := demo_externals true)
              default_config demo_config "default" delete_last_args
              plain_journal journal_world Hreq) as [Hlast _].
  destruct (delete_last_removes_last (H := demo_externals true)
              default_config demo_config "default" delete_last_args
              (mkJournal [] default_config None false) journal_world Hreq)
    as [_ Hempty].
  split.
  - destruct (Hlast [demo_entry default_config 1 "breakfast"]
                (demo_entry default_config 2 "lunch") eq_refl) as [Heq _].
    exact Heq.
  - exact (Hempty eq_refl).
Defined.


Lemma encrypt_asks_new_password_witness :
  encrypt (H := demo_externals true) secret_journal None
    (mkWorld {[ "journal.txt" := File "breakfast lunch" ]} (Some demo_config)
       ["new secret"] [] [])
  = (Val (mkJournal two_entries
            (set_encrypt true (set_password "" (config secret_journal)))
            (Some "key of new secret") false),
     mkWorld {[ "journal.txt" := File "key of new secret|breakfast lunch" ]}
       (Some demo_config) [] []
       [Prompt "Enter new password:"; Line "Journal encrypted to journal.txt."]).
Proof.
  destruct (encrypt_asks_new_password (H := demo_externals true)
              secret_journal None "new secret" []
              (mkWorld {[ "journal.txt" := File "breakfast lunch" ]}
                 (Some demo_config) ["new secret"] [] [])
              eq_refl) as (_ & _ & Hfile & _).
  exact (Hfile "journal.txt" eq_refl eq_refl ltac:(vm_compute; discriminate)).
Defined.


Lemma compose_empty_text_keeps_store_witness :
  cli_dispatch (H := demo_externals true) default_config demo_config
    "default" no_args true false plain_journal
    (mkWorld {[ "journal.txt" := File "breakfast lunch" ]} (Some demo_config)
       [""] [] [])
  = (Val plain_journal,
     mkWorld {[ "journal.txt" := File "breakfast lunch" ]} (Some demo_config)
       [] [] [Prompt "[Compose Entry] "; Line "breakfast, lunch"]).
Proof.
  destruct (compose_empty_text_keeps_store (H := demo_externals true)
              default_config demo_config "default" no_args plain_journal
              (mkWorld {[ "journal.txt" := File "breakfast lunch" ]}
                 (Some demo_config) [""] [] [])
              (mkWorld {[ "journal.txt" := File "breakfast lunch" ]}
                 (Some demo_config) [] [] [Prompt "[Compose Entry] "])
              eq_refl eq_refl eq_refl) as [Heq _].
  exact Heq.
Defined.



(** * More properties of the tag report *)

Section TagReportMore.

Implicit Types (j : Journal) (w : World) (t tag : string) (n : nat).

#[local] Instance tuple_le_transitive : Transitive tuple_le.
Proof.
  intros x y z. rewrite !tuple_le_spec.
  intros [?|[? ?]] [?|[? ?]]; [left; lia..|].
  right. split; [congruence|]. by etrans.
Qed.

#[local] Instance tuple_le_antisymm : AntiSymm (=) tuple_le.
Proof.
  intros [n1 t1] [n2 t2]. rewrite !tuple_le_spec. simpl.
  intros [?|[? ?]] [?|[? ?]]; try lia.
  f_equal; [done|]. by apply (anti_symm String.le).
Qed.

Lemma all_tags_nil_counts j :
  all_tags j = [] ↔ ∀ tag, length (entries_with tag j) = 0.
Proof.
  split.
  - intros Hnil tag. rewrite <-count_all_tags, Hnil. done.
  - intros Hzero. destruct (all_tags j) as [|t ts] eqn:Ht; [done|].
    assert (0 < count t (all_tags j)) as Hpos.
    { apply count_pos. rewrite Ht. left. }
    rewrite count_all_tags, Hzero in Hpos. lia.
Qed.

Lemma report_determined_by_counts j1 j2 w :
  (∀ tag, length (entries_with tag j1) = length (entries_with tag j2)) →
  print_tags j1 w = print_tags j2 w.
Proof.
  intros Hsame. rewrite !print_tags_spec.
  assert (report_notice j1 = report_notice j2) as ->.
  { unfold report_notice.
    destruct (all_tags j1) as [|t1 ts1] eqn:H1,
             (all_tags j2) as [|t2 ts2] eqn:H2; [done| | |done].
    - pose proof (proj1 (all_tags_nil_counts j1) H1) as Hzero.
      assert (all_tags j2 = []) as Hnil.
      { apply all_tags_nil_counts. intros tag. by rewrite <-Hsame. }
      congruence.
    - pose proof (proj1 (all_tags_nil_counts j2) H2) as Hzero.
      assert (all_tags j1 = []) as Hnil.
      { apply all_tags_nil_counts. intros tag. by rewrite Hsame. }
      congruence. }
  assert (report_rows j1 = report_rows j2) as ->; [|done].
  apply (StronglySorted_unique tuple_le); [apply sorted_ascending..|].
  apply NoDup_Permutation; [apply report_rows_NoDup..|].
  intros [n tag]. rewrite !elem_of_report_rows, Hsame. done.
Qed.

(** X2: the report is a function of the number of entries that carry
    each tag: two journals that agree on these numbers get the same
    report, whatever the order of their entries, the order of the tags
    within an entry and the repetitions of a tag within an entry. *)
Theorem print_tags_depends_on_counts j1 j2 w :
  (∀ tag, length (entries_with tag j1) = length (entries_with tag j2)) →
  print_tags j1 w = print_tags j2 w.
Proof. apply report_determined_by_counts. Qed.

(** In particular, reordering the entries does not change the report. *)
Lemma print_tags_permutation j1 j2 w :
  entries j1 ≡ₚ entries j2 → print_tags j1 w = print_tags j2 w.
Proof.
  intros Hperm. apply report_determined_by_counts. intros tag.
  unfold entries_with. by rewrite Hperm.
Qed.

(** *** The layout of a row *)

Lemma string_length_app (s1 s2 : string) :
  String.length (s1 ++ s2) = String.length s1 + String.length s2.
Proof. induction s1 as [|c s1 IH]; simpl; [done|]. by rewrite IH. Qed.

Lemma string_prefix_app (s1 s2 : string) : String.prefix s1 (s1 ++ s2) = true.
Proof.
  induction s1 as [|c s1 IH]; simpl; [by destruct s2|].
  destruct (ascii_dec c c); [done|congruence].
Qed.

Lemma string_app_assoc (s1 s2 s3 : string) :
  (s1 ++ s2) ++ s3 = s1 ++ s2 ++ s3.
Proof.
  induction s1 as [|c s1 IH]; [done|].
  change (String c ((s1 ++ s2) ++ s3) = String c (s1 ++ s2 ++ s3)).
  by rewrite IH.
Qed.

Lemma padding_length (k : nat) :
  String.length (join "" (replicate k " ")) = k.
Proof.
  induction k as [|k IH]; [done|].
  destruct k as [|k]; [done|].
  change (replicate (S (S k)) " ") with (" " :: replicate (S k) " ").
  change (join "" (" " :: replicate (S k) " "))
    with (" " ++ "" ++ join "" (replicate (S k) " ")).
  rewrite !string_length_app, IH. done.
Qed.

(** X3: a row begins with the tag, which is padded to twenty characters and
    never cut: the separator starts at column twenty for every tag of at
    most twenty characters, and right after the tag for a longer one. *)
Theorem format_tag_layout tag n :
  String.prefix tag (format_tag tag n) = true
  ∧ String.length (ljust20 tag) = max 20 (String.length tag)
  ∧ String.length (format_tag tag n)
    = max 20 (String.length tag) + 3 + String.length (pretty n).
Proof.
  assert (String.length (ljust20 tag) = max 20 (String.length tag)) as Hl.
  { unfold ljust20. rewrite string_length_app, padding_length. lia. }
  split.
  { unfold format_tag, ljust20. rewrite string_app_assoc.
    apply string_prefix_app. }
  split; [done|].
  unfold format_tag. rewrite !string_length_app, Hl. simpl. lia.
Qed.

End TagReportMore.

(** * More properties of the front end *)

Section FrontendMore.
Context `{Externals}.

Implicit Types (j journal : Journal) (w : World) (cfg config : Config)
  (args : Args) (path : string).

(** ** [touch_journal] *)

(** X4: touching twice is touching once: the second call finds the file and
    neither writes nor announces anything. *)
Theorem touch_journal_idempotent (filename : option string) w :
  (touch_journal filename;; touch_journal filename) w
  = touch_journal filename w.
Proof.
  rewrite bind_spec. destruct filename as [path|]; [|done].
  destruct (fs w !! path) as [n|] eqn:Hp.
  - by rewrite !touch_journal_present by (by rewrite Hp).
  - rewrite touch_journal_missing by done.
    apply touch_journal_present. simpl. rewrite lookup_insert_eq. eauto.
Qed.

(** ** [get_text_from_editor] *)



(** X7: however the session goes, a text is only returned once the temporary
    file is out of the way. *)
Theorem editor_leaves_no_tmpfile cfg w raw w' :
  get_text_from_editor cfg w = (Val raw, w') →
  fs w' !! editor_tmpfile = None.
Proof.
  unfold get_text_from_editor. fold editor_tmpfile. rewrite bind_spec.
  destruct (subprocess_call_editor _ _ w) as [[[]| |] w1]; [|done..].
  rewrite bind_spec. unfold exists_path. simpl.
  destruct (fs w1 !! editor_tmpfile) as [n|] eqn:Hf.
  - rewrite bool_decide_eq_true_2 by eauto.
    rewrite bind_spec. unfold read_file. rewrite Hf.
    destruct n as [c|]; [|done].
    rewrite bind_spec. unfold remove_file. rewrite Hf. simpl.
    intros [= _ <-]. simpl. apply lookup_delete_eq.
  - rewrite bool_decide_eq_false_2 by (by intros [? ?]).
    rewrite bind_spec, print_spec. simpl. intros [= _ <-]. done.
Qed.

(** ** [update_config] *)

Lemma overrides_update_assoc (new2 new1 d : Overrides) :
  overrides_update new2 (overrides_update new1 d)
  = overrides_update (overrides_update new2 new1) d.
Proof.
  destruct new2 as [[] [] [] [] []], new1 as [[] [] [] [] []]; done.
Qed.

Lemma config_update_twice (new2 new1 : Overrides) config :
  config_update new2 (config_update new1 config)
  = config_update (overrides_update new2 new1) config.
Proof.
  destruct new2 as [[] [] [] [] []], new1 as [[] [] [] [] []]; done.
Qed.

(** X8: [update_config] changes either the global keys or the dictionary of
    the journal [scope], never both, and no other journal; it fails, with
    a [KeyError], exactly when [scope] is a non-empty name that the
    configuration does not know; it has no effect on the world. *)
Theorem update_config_scoping config (new : Overrides) (scope : string) w :
  (update_config config new scope w).2 = w
  ∧ ((update_config config new scope w).1 = Raise KeyError
     ↔ scope ≠ "" ∧ cfg_journals config !! scope = None)
  ∧ (∀ config',
       (update_config config new scope w).1 = Val config' →
       (∀ other, other ≠ scope →
          cfg_journals config' !! other = cfg_journals config !! other)
       ∧ ((∃ d, scope ≠ ""
             ∧ cfg_journals config !! scope = Some (ConfDict d)
             ∧ same_global_keys config' config
             ∧ cfg_journals config' !! scope
               = Some (ConfDict (overrides_update new d)))
          ∨ ((scope = "" ∨ ∃ p, cfg_journals config !! scope = Some (ConfPath p))
             ∧ config' = config_update new config
             ∧ cfg_journals config' = cfg_journals config))).
Proof.
  split; [apply update_config_world|].
  unfold update_config. destruct scope as [|c s]; simpl.
  { split; [split; [done|by intros [? _]]|].
    intros config' [= <-]. split; [done|]. right. auto. }
  destruct (cfg_journals config !! String c s) as [[p|d]|] eqn:Hj; simpl.
  - split; [split; [done|by intros [_ ?]]|].
    intros config' [= <-]. split; [done|]. right. eauto.
  - split; [split; [done|by intros [_ ?]]|].
    intros config' [= <-]. simpl. split.
    + intros other Hne. by rewrite lookup_insert_ne.
    + left. exists d. rewrite lookup_insert_eq. by repeat split.
  - split; [done|]. intros config' [=].
Qed.

(** X9: two updates in a row amount to one update with the later values laid
    over the earlier ones. *)
Theorem update_config_twice config (new1 new2 : Overrides) (scope : string)
    w config1 :
  update_config config new1 scope w = (Val config1, w) →
  update_config config1 new2 scope w
  = update_config config (overrides_update new2 new1) scope w.
Proof.
  unfold update_config. destruct (truthy scope).
  - destruct (cfg_journals config !! scope) as [[p|d]|] eqn:Hj; [| |done].
    + intros [= <-]. simpl. rewrite Hj. simpl.
      by rewrite config_update_twice.
    + intros [= <-]. simpl. rewrite lookup_insert_eq. simpl.
      unfold set_journals. simpl.
      by rewrite insert_insert_eq, overrides_update_assoc.
  - intros [= <-]. simpl. by rewrite config_update_twice.
Qed.

End FrontendMore.

(** * More properties of [cli] *)

Section CliMore.
Context `{Externals}.

Implicit Types (j journal : Journal) (w : World) (cfg config : Config)
  (args : Args) (path : string).

(** ** The export modes *)

Lemma guess_mode_export args cfg :
  export_flag args → guess_mode args cfg = (false, true).
Proof.
  intros He%export_test. unfold guess_mode. by rewrite He.
Qed.

(** X11: the three exports that only show something: [--tags] comes first,
    then [--json], then [--markdown].  Each prints its text and leaves the
    journal, the files and the configuration alone, whatever other export
    flags are given with it: nothing is encrypted, decrypted or deleted. *)
Theorem read_only_exports cfg original_config name args journal w :
  let result :=
    cli_dispatch cfg original_config name args
      (guess_mode args cfg).1 (guess_mode args cfg).2 journal w in
  (a_tags args = true →
   result
   = (Val journal,
      add_out (report_notice journal ++ (row_line <$> report_rows journal)) w))
  ∧ (a_tags args = false → a_json args = true →
     result = (Val journal, add_out [Line (to_json journal)] w))
  ∧ (a_tags args = false → a_json args = false → a_markdown args = true →
     result = (Val journal, add_out [Line (to_md journal)] w)).
Proof.
  intros result. unfold result. split; [|split].
  - intros Ht. rewrite guess_mode_export by (unfold export_flag; auto 10).
    unfold cli_dispatch. simpl. rewrite bind_spec. simpl. rewrite Ht.
    rewrite bind_spec, print_tags_spec. done.
  - intros Ht Hj. rewrite guess_mode_export by (unfold export_flag; auto 10).
    unfold cli_dispatch. simpl. rewrite bind_spec. simpl. rewrite Ht, Hj.
    done.
  - intros Ht Hj Hm. rewrite guess_mode_export by (unfold export_flag; auto 10).
    unfold cli_dispatch. simpl. rewrite bind_spec. simpl.
    rewrite Ht, Hj, Hm. done.
Qed.

(** X12: among the export modes that change something, [--encrypt] comes
    before [--decrypt] and [--delete-last], and [--decrypt] before
    [--delete-last]: a flag that comes later is ignored. *)
Theorem later_export_flags_ignored cfg original_config name args journal w :
  (encrypt_requested args →
   cli_dispatch cfg original_config name args
     (guess_mode args cfg).1 (guess_mode args cfg).2 journal w
   = cli_dispatch cfg original_config name (without_decrypt_delete args)
       (guess_mode (without_decrypt_delete args) cfg).1
       (guess_mode (without_decrypt_delete args) cfg).2 journal w)
  ∧ (decrypt_requested args →
     cli_dispatch cfg original_config name args
       (guess_mode args cfg).1 (guess_mode args cfg).2 journal w
     = cli_dispatch cfg original_config name (without_delete args)
         (guess_mode (without_delete args) cfg).1
         (guess_mode (without_delete args) cfg).2 journal w).
Proof.
  split.
  - intros (Ht & Hj & Hm & He).
    rewrite !guess_mode_export by (unfold export_flag; simpl; auto 10).
    apply is_not_False_given in He.
    unfold cli_dispatch. simpl. rewrite !bind_spec. simpl.
    rewrite Ht, Hj, Hm, He. simpl. done.
  - intros (Ht & Hj & Hm & He & Hd).
    rewrite !guess_mode_export by (unfold export_flag; simpl; auto 10).
    apply is_not_False_given in Hd.
    unfold cli_dispatch. simpl. rewrite !bind_spec. simpl.
    rewrite Ht, Hj, Hm, He, Hd. simpl. done.
Qed.

(** ** Encrypting in place *)

Lemma update_config_effective original_config (new : Overrides) name saved
    (b : bool) (p : string) w w' :
  truthy name = true →
  o_encrypt new = Some b →
  o_password new = Some p →
  update_config original_config new name w = (Val saved, w') →
  cfg_encrypt (journal_config name saved) = b
  ∧ cfg_password (journal_config name saved) = p.
Proof.
  intros Hname Hb Hp. unfold update_config. rewrite Hname.
  destruct (cfg_journals original_config !! name) as [[q|d]|] eqn:Hj;
    [| |done].
  - intros [= <- _]. unfold journal_config. simpl. rewrite Hj. simpl.
    by rewrite Hb, Hp.
  - intros [= <- _]. unfold journal_config. simpl.
    rewrite lookup_insert_eq. simpl. by rewrite Hb, Hp.
Qed.

Lemma encrypt_result journal filename w j' w' :
  encrypt journal filename w = (Val j', w') →
  cfg_encrypt (config j') = true ∧ config_file w' = config_file w.
Proof.
  unfold encrypt. rewrite bind_spec.
  pose proof (keeps_files_make_key "Enter new password:"
    (set_config (set_password "" (config journal)) journal) w) as [_ Hk].
  destruct (make_key _ _ w) as [[j1| |] w1]; [|done..].
  rewrite bind_spec.
  pose proof (Journal_write_config_file filename
    (set_config (set_encrypt true (config j1)) j1) w1) as Hw.
  destruct (Journal_write _ _ w1) as [[[]| |] w2]; [|done..].
  simpl in *. intros [= <- <-]. simpl. split; [done|]. congruence.
Qed.

Lemma encrypt_config_file journal filename w :
  config_file (encrypt journal filename w).2 = config_file w.
Proof.
  unfold encrypt. rewrite bind_spec.
  pose proof (keeps_files_make_key "Enter new password:"
    (set_config (set_password "" (config journal)) journal) w) as [_ Hk].
  destruct (make_key _ _ w) as [[j1| |] w1]; [|done..].
  rewrite bind_spec.
  pose proof (Journal_write_config_file filename
    (set_config (set_encrypt true (config j1)) j1) w1) as Hw.
  destruct (Journal_write _ _ w1) as [[[]| |] w2]; simpl in *; congruence.
Qed.


(** ** Before the journal is opened *)

(** X13: when the configuration has no entry for the selected journal (no
    [default] journal, and no journal named by the first argument), the
    invocation fails with a [TypeError] before anything is printed or
    written. *)
Theorem no_journal_configured cfg args w :
  cfg_encrypt cfg && negb PYCRYPTO = false →
  cfg_journals cfg !! (select_journal args cfg).1 = None →
  (select_journal args cfg).1 = "default"
  ∧ cli_main cfg args w = (Raise TypeError, w).
Proof.
  intros Hcheck Hnone. split.
  - unfold select_journal in *. destruct (a_text args) as [|t rest]; [done|].
    destruct (bool_decide (is_Some (cfg_journals cfg !! t))) eqn:Hb; [|done].
    apply bool_decide_eq_true in Hb as [x Hx]. simpl in Hnone. congruence.
  - unfold cli_main. rewrite Hcheck.
    destruct (select_journal args cfg) as [journal_name args'].
    simpl in Hnone. unfold journal_config. rewrite Hnone. simpl.
    by destruct (guess_mode args' _).
Qed.

End CliMore.

(** * More properties of the mode dispatch *)

(** X16: text arguments that are there but hold no word (an empty string, or
    blanks only) pass for a list of tags, whatever the tag symbols: without
    a date, the mode is reading and not composing. *)
Theorem guess_mode_blank_text (args : Args) (config : Config) :
  ¬ export_flag args →
  ¬ reading_flag args →
  ¬ is_set (a_date args) →
  a_text args ≠ [] →
  split (join " " (a_text args)) = [] →
  guess_mode args config = (false, false).
Proof.
  intros He Hr Hd Ht Hw. unfold guess_mode.
  pose proof (export_test args) as He'.
  pose proof (reading_test args) as Hr'.
  destruct (_ || a_delete_last args); [tauto|].
  destruct (_ || a_short args); [tauto|].
  rewrite Hw. simpl. rewrite andb_true_r.
  apply truthy_list_spec in Ht. rewrite Ht.
  destruct (truthy_opt (a_date args)) eqn:Hdate; [|done].
  apply truthy_opt_is_set in Hdate. done.
Qed.

(** * What an invocation never does *)

Section Steps.
Context `{Externals}.

Implicit Types (j journal : Journal) (w : World) (cfg config : Config)
  (args : Args) (path : string).

#[local] Instance out_extends_preorder : PreOrder out_extends.
Proof.
  split.
  - intros w. exists []. by rewrite app_nil_r.
  - intros w1 w2 w3 [o1 H1] [o2 H2]. exists (o1 ++ o2)%list.
    by rewrite H2, H1, app_assoc.
Qed.

#[local] Instance same_config_file_preorder : PreOrder same_config_file.
Proof.
  split; [done|]. intros w1 w2 w3. unfold same_config_file. congruence.
Qed.

#[local] Instance quiet_preorder : PreOrder quiet.
Proof.
  split.
  - intros w. split; reflexivity.
  - intros w1 w2 w3 [? ?] [? ?]. split; by etrans.
Qed.

Lemma steps_ret (R : relation World) `{!PreOrder R} {A} (a : A) :
  steps R (mret a : M A).
Proof. intros w. simpl. reflexivity. Qed.

Lemma steps_raise (R : relation World) `{!PreOrder R} {A} e :
  steps R (raise e : M A).
Proof. intros w. simpl. reflexivity. Qed.

Lemma steps_exit (R : relation World) `{!PreOrder R} {A} c :
  steps R (sys_exit c : M A).
Proof. intros w. simpl. reflexivity. Qed.

Lemma steps_bind (R : relation World) `{!PreOrder R} {A B} (m : M A)
    (f : A → M B) :
  steps R m → (∀ a, steps R (f a)) → steps R (m ≫= f).
Proof.
  intros Hm Hf w. rewrite bind_spec. specialize (Hm w).
  destruct (m w) as [[a| |] w1]; simpl in *; [|done..].
  etrans; [done|]. apply Hf.
Qed.

Lemma steps_if (R : relation World) {A} (b : bool) (m1 m2 : M A) :
  steps R m1 → steps R m2 → steps R (if b then m1 else m2).
Proof. by destruct b. Qed.

Lemma steps_look (R : relation World) `{!PreOrder R} {A} (f : World → A) :
  steps R (λ w, (Val (f w), w)).
Proof. intros w. simpl. reflexivity. Qed.

Lemma steps_quiet_out {A} (m : M A) : steps quiet m → steps out_extends m.
Proof. intros Hm w. apply Hm. Qed.

Lemma steps_quiet_config {A} (m : M A) :
  steps quiet m → steps same_config_file m.
Proof. intros Hm w. apply Hm. Qed.

(** The primitive effects *)

Lemma quiet_add_out o w : quiet w (add_out o w).
Proof. split; [by exists o|done]. Qed.

Lemma quiet_set_fs f w : quiet w (set_fs f w).
Proof. split; [exists []; simpl; by rewrite app_nil_r|done]. Qed.

Lemma steps_print s : steps quiet (print s).
Proof. intros w. apply (quiet_add_out [Line s]). Qed.

Lemma steps_read_line prompt : steps quiet (read_line prompt).
Proof.
  intros w. unfold read_line.
  destruct (stdin w); (split; [by exists [Prompt prompt]|done]).
Qed.

Lemma steps_read_file path : steps quiet (read_file path).
Proof.
  intros w. unfold read_file.
  destruct (fs w !! path) as [[]|]; simpl; reflexivity.
Qed.

Lemma steps_write_file path c : steps quiet (write_file path c).
Proof.
  intros w. unfold write_file.
  destruct (fs w !! path) as [[]|]; simpl;
    first [apply quiet_set_fs|reflexivity].
Qed.

Lemma steps_remove_file path : steps quiet (remove_file path).
Proof.
  intros w. unfold remove_file.
  destruct (fs w !! path) as [[]|]; simpl;
    first [apply quiet_set_fs|reflexivity].
Qed.

Lemma steps_editor_session cmd tmpfile :
  steps quiet (subprocess_call_editor cmd tmpfile).
Proof.
  intros w. unfold subprocess_call_editor.
  destruct (edits w) as [|[text|] rest]; [reflexivity| |].
  - etrans; [|apply steps_write_file].
    split; [exists []; simpl; by rewrite app_nil_r|done].
  - split; [exists []; simpl; by rewrite app_nil_r|done].
Qed.

Lemma steps_print_tags j : steps quiet (print_tags j).
Proof. intros w. rewrite print_tags_spec. apply quiet_add_out. Qed.

Create HintDb steps discriminated.
#[local] Hint Resolve steps_ret steps_raise steps_exit steps_bind steps_if
  steps_look steps_print steps_read_line steps_read_file steps_write_file
  steps_remove_file steps_editor_session steps_print_tags : steps.
#[local] Hint Extern 1 (PreOrder _) => apply _ : steps.

(** The methods of the store *)

Lemma steps_make_key prompt j : steps quiet (make_key prompt j).
Proof. unfold make_key. auto with steps. Qed.

Lemma steps_Journal_open cfg : steps quiet (Journal_open cfg).
Proof.
  unfold Journal_open. destruct (cfg_journal cfg); [|auto with steps].
  apply steps_bind; [apply _|auto with steps|]. intros raw.
  repeat apply steps_if; auto with steps.
  apply steps_bind; [apply _|apply steps_make_key|]. intros j.
  destruct (crypto_decrypt _ _); auto with steps.
Qed.

Lemma steps_DayOne_open cfg : steps quiet (DayOne_open cfg).
Proof. intros w. simpl. reflexivity. Qed.

Lemma steps_Journal_write filename j : steps quiet (Journal_write filename j).
Proof.
  unfold Journal_write. destruct (or_else _ _); [|auto with steps].
  destruct (dayone j); [|auto with steps].
  intros w. apply quiet_set_fs.
Qed.

Lemma steps_Journal_new_entry raw date j :
  steps quiet (Journal_new_entry raw date j).
Proof.
  intros w. unfold Journal_new_entry.
  destruct (Entry_create _ _ _ _); simpl; reflexivity.
Qed.

Lemma steps_Journal_view ts sd ed st sh lim j :
  steps quiet (Journal_view ts sd ed st sh lim j).
Proof.
  unfold Journal_view. destruct (Journal_filter _ _ _ _ _ _ _);
    auto with steps.
Qed.

Lemma steps_update_config (R : relation World) `{!PreOrder R} config new
    scope :
  steps R (update_config config new scope).
Proof. intros w. rewrite update_config_world. reflexivity. Qed.

Lemma steps_save_config config : steps out_extends (save_config config).
Proof. intros w. exists []. simpl. by rewrite app_nil_r. Qed.

#[local] Hint Resolve steps_make_key steps_Journal_open steps_DayOne_open
  steps_Journal_write steps_Journal_new_entry steps_Journal_view : steps.

(** The functions of the front end *)

Lemma steps_get_text_from_editor cfg : steps quiet (get_text_from_editor cfg).
Proof. unfold get_text_from_editor. auto 8 with steps. Qed.

Lemma steps_touch_journal filename : steps quiet (touch_journal filename).
Proof.
  unfold touch_journal. destruct filename; auto 8 with steps.
Qed.

Lemma steps_encrypt journal filename : steps quiet (encrypt journal filename).
Proof. unfold encrypt. auto 8 with steps. Qed.

Lemma steps_decrypt journal filename : steps quiet (decrypt journal filename).
Proof. unfold decrypt. auto 8 with steps. Qed.

#[local] Hint Resolve steps_get_text_from_editor steps_touch_journal
  steps_encrypt steps_decrypt steps_quiet_out : steps.

Lemma steps_compose_text cfg :
  steps quiet
    (if truthy (cfg_editor cfg) then get_text_from_editor cfg
     else py23_input "[Compose Entry] ").
Proof. unfold py23_input. auto with steps. Qed.

(** Rearrangements of a sequence of computations, run by run *)

Lemma steps_ext (R : relation World) {A} (m1 m2 : M A) :
  (∀ w, m1 w = m2 w) → steps R m2 → steps R m1.
Proof. intros Heq Hm w. rewrite Heq. apply Hm. Qed.

Lemma steps_bind_ret (R : relation World) {A B} (a : A) (k : A → M B) :
  steps R (k a) → steps R (mret a ≫= k).
Proof. by apply steps_ext. Qed.

Lemma steps_bind_assoc (R : relation World) {A B C} (m : M A) (f : A → M B)
    (k : B → M C) :
  steps R (m ≫= λ a, f a ≫= k) → steps R ((m ≫= f) ≫= k).
Proof.
  apply steps_ext. intros w. rewrite !bind_spec.
  by destruct (m w) as [[a| |] w1].
Qed.

(** [cli_dispatch] after its first step, for arguments and a mode that
    are settled *)
Lemma steps_dispatch_settled (R : relation World) `{!PreOrder R}
    cfg original_config name args (mode_compose mode_export : bool) journal :
  (∀ {A} (m : M A), steps quiet m → steps R m) →
  (given (a_encrypt args) ∨ given (a_decrypt args) →
   ∀ c, steps R (save_config c)) →
  ∀ text,
    steps R
      (cli_dispatch cfg original_config name (set_text (text :: []) args)
         mode_compose mode_export journal)
    ∧ (mode_compose && negb (truthy_list (a_text args)) = false →
       steps R
         (cli_dispatch cfg original_config name args
            mode_compose mode_export journal)).
Proof.
  intros Hq Hsave text.
  assert (∀ args', a_tags args' = a_tags args → a_json args' = a_json args →
            a_markdown args' = a_markdown args →
            a_encrypt args' = a_encrypt args →
            a_decrypt args' = a_decrypt args →
            mode_compose && negb (truthy_list (a_text args')) = false →
            steps R
              (cli_dispatch cfg original_config name args'
                 mode_compose mode_export journal)) as Hgen.
  { intros args' Et Ej Em Ee Ed Hfirst. unfold cli_dispatch.
    rewrite Hfirst. apply steps_bind_ret.
    destruct mode_compose.
    { apply Hq. apply steps_bind; [apply _|auto with steps|].
      intros [j e]. auto 8 with steps. }
    apply steps_if; [apply Hq; auto 8 with steps|].
    apply steps_if; [apply Hq; auto 8 with steps|].
    apply steps_if; [apply Hq; auto 8 with steps|].
    apply steps_if; [apply Hq; auto 8 with steps|].
    apply steps_if; [apply Hq; auto 8 with steps|].
    destruct (is_not_False (a_encrypt args')) eqn:He.
    { assert (given (a_encrypt args) ∨ given (a_decrypt args)) as Hg.
      { left. apply is_not_False_given. by rewrite <-Ee. }
      apply steps_bind; [done|apply Hq; auto with steps|]. intros j.
      apply steps_bind; [done| |intros; by apply steps_ret].
      apply steps_if; [|by apply steps_ret].
      apply steps_bind; [done|by apply steps_update_config|]. auto. }
    destruct (is_not_False (a_decrypt args')) eqn:Hd.
    { assert (given (a_encrypt args) ∨ given (a_decrypt args)) as Hg.
      { right. apply is_not_False_given. by rewrite <-Ed. }
      apply steps_bind; [done|apply Hq; auto with steps|]. intros j.
      apply steps_bind; [done| |intros; by apply steps_ret].
      apply steps_if; [|by apply steps_ret].
      apply steps_bind; [done|by apply steps_update_config|]. auto. }
    apply steps_if; [|by apply steps_ret].
    apply Hq. destruct (pop (entries journal)) as [[e es]|];
      auto 8 with steps. }
  split.
  - apply Hgen; try done. simpl. apply andb_false_r.
  - intros Hfirst. by apply Hgen.
Qed.

Lemma steps_cli_dispatch (R : relation World) `{!PreOrder R}
    cfg original_config name args (mode_compose mode_export : bool) journal :
  (∀ {A} (m : M A), steps quiet m → steps R m) →
  (given (a_encrypt args) ∨ given (a_decrypt args) →
   ∀ c, steps R (save_config c)) →
  steps R
    (cli_dispatch cfg original_config name args
       mode_compose mode_export journal).
Proof.
  intros Hq Hsave.
  destruct (mode_compose && negb (truthy_list (a_text args))) eqn:Hfirst.
  2:{ by apply (steps_dispatch_settled R _ _ _ _ _ _ _ Hq Hsave ""). }
  apply andb_true_iff in Hfirst as [-> Htext].
  pose proof (λ text, proj1
    (steps_dispatch_settled R cfg original_config name args true
       mode_export journal Hq Hsave text)) as Hone.
  pose proof (proj2
    (steps_dispatch_settled R cfg original_config name args false
       mode_export journal Hq Hsave "") eq_refl) as Hoff.
  unfold cli_dispatch in *. rewrite Htext. simpl.
  apply steps_bind_assoc.
  apply steps_bind; [done|apply Hq, steps_compose_text|]. intros raw.
  destruct (truthy raw).
  - specialize (Hone raw). simpl in Hone.
    eapply steps_ext; [|exact Hone]. intros w. by rewrite !bind_spec.
  - simpl in Hoff. eapply steps_ext; [|exact Hoff].
    intros w. by rewrite !bind_spec.
Qed.

Lemma steps_cli_main (R : relation World) `{!PreOrder R} cfg args :
  (∀ {A} (m : M A), steps quiet m → steps R m) →
  (given (a_encrypt args) ∨ given (a_decrypt args) →
   ∀ c, steps R (save_config c)) →
  steps R (cli_main cfg args).
Proof.
  intros Hq Hsave. unfold cli_main.
  apply steps_if; [apply Hq; auto with steps|].
  assert (a_encrypt (select_journal args cfg).2 = a_encrypt args
          ∧ a_decrypt (select_journal args cfg).2 = a_decrypt args)
    as [Ee Ed].
  { unfold select_journal. destruct (a_text args); [done|].
    by destruct (bool_decide _). }
  destruct (select_journal args cfg) as [journal_name args']. simpl in *.
  apply steps_bind; [done|apply Hq; auto with steps|]. intros _.
  destruct (guess_mode args' _) as [mode_compose mode_export].
  apply steps_bind; [done|by apply steps_look|]. intros is_dayone.
  apply steps_bind; [done|apply Hq; destruct is_dayone; auto with steps|].
  intros journal. apply steps_cli_dispatch; [done..|].
  rewrite Ee, Ed. done.
Qed.

(** X14: only the encrypt and decrypt operations ever save the
    configuration:
    an invocation that requests neither (composing, reading, any export,
    delete-last) leaves the saved configuration as it was, however it
    ends. *)
Theorem only_crypto_saves_config cfg args w :
  ¬ crypto_requested args →
  config_file (cli_main cfg args w).2 = config_file w.
Proof.
  intros Hno. apply (steps_cli_main same_config_file).
  - intros A m. apply steps_quiet_config.
  - intros Hreq. destruct Hno. exact Hreq.
Qed.

(** X15: whatever an invocation goes on to do, when it gets past the check for
    PyCrypto and the file of the selected journal is missing, the first
    thing it shows is the announcement that the journal was created;
    nothing shown before is taken back. *)
Theorem journal_creation_announced_first cfg args w path :
  cfg_encrypt cfg && negb PYCRYPTO = false →
  cfg_journal (journal_config (select_journal args cfg).1 cfg) = Some path →
  fs w !! path = None →
  ∃ o,
    out (cli_main cfg args w).2
    = (out w ++ [Line ("[Journal created at " ++ path ++ "]")] ++ o)%list.
Proof.
  intros Hcheck Hpath Hmissing.
  assert (∀ c, steps out_extends (save_config c)) as Hsave
    by apply steps_save_config.
  unfold cli_main. rewrite Hcheck.
  destruct (select_journal args cfg) as [journal_name args']. simpl in *.
  rewrite Hpath. rewrite bind_spec, touch_journal_missing by done.
  destruct (guess_mode args' _) as [mode_compose mode_export].
  set (w1 := set_fs _ _).
  assert (steps out_extends
            (is_dayone ← (λ w0,
               (Val (isdir path w0
                     && (endswith path ".dayone" || endswith path ".dayone/")),
                w0));
             journal ← (if is_dayone : bool
                        then DayOne_open (journal_config journal_name cfg)
                        else Journal_open (journal_config journal_name cfg));
             cli_dispatch (journal_config journal_name cfg) cfg journal_name
               args' mode_compose mode_export journal)) as Hrest.
  { apply steps_bind; [apply _|intros w0; simpl; reflexivity|].
    intros is_dayone.
    apply steps_bind;
      [apply _|apply steps_quiet_out; destruct is_dayone; auto with steps|].
    intros journal. apply steps_cli_dispatch;
      [apply _|intros A m; apply steps_quiet_out|done]. }
  destruct (Hrest w1) as [o Ho]. exists o.
  rewrite Ho. unfold w1. simpl. by rewrite <-app_assoc.
Qed.

End Steps.

(** * Composing an entry *)

Section Compose.
Context `{Externals}.

(** X17: in compose mode with text on the command line, the arguments are
    joined by single blanks and stripped, and handed to the creation of
    the entry with the date.  When the creation fails, nothing is printed
    or written.  Otherwise the new entry is the last of the journal,
    starred exactly when [-star] was given, the earlier entries are what
    they were, the addition is announced and the journal is written to its
    own file. *)
Theorem compose_appends_entry (cfg original_config : Config) (name : string)
    (args : Args) (journal : Journal) (w : World) :
  (guess_mode args cfg).1 = true →
  a_text args ≠ [] →
  let raw := strip (join " " (a_text args)) in
  let result :=
    cli_dispatch cfg original_config name args
      (guess_mode args cfg).1 (guess_mode args cfg).2 journal w in
  (∀ e,
     Entry_create (config journal) raw (a_date args) w = Val e →
     let journal' :=
       set_entries (entries journal ++ [set_starred (a_star args) e]) journal
     in
     result
     = (Journal_write None journal';; mret journal')
         (add_out [Line ("[Entry added to " ++ name ++ " journal]")] w))
  ∧ (∀ x,
       Entry_create (config journal) raw (a_date args) w = Raise x →
       result = (Raise x, w)).
Proof.
  intros Hc Htext raw result. unfold result, cli_dispatch. rewrite Hc.
  apply truthy_list_spec in Htext. rewrite Htext. simpl.
  rewrite bind_spec. simpl. fold raw. split.
  - intros e He. rewrite bind_spec. unfold Journal_new_entry. rewrite He.
    simpl. unfold star_last. simpl. rewrite pop_snoc.
    rewrite bind_spec, print_spec. done.
  - intros x Hx. rewrite bind_spec. unfold Journal_new_entry. by rewrite Hx.
Qed.

End Compose.

(** * The further properties at sample values *)

Lemma print_tags_depends_on_counts_witness :
  print_tags gym_work_journal empty_world
  = print_tags work_gym_journal empty_world.
Proof.
  apply print_tags_depends_on_counts. intros tag.
  unfold entries_with. simpl. rewrite !filter_cons, !filter_nil. simpl.
  destruct (decide (tag = "@work")) as [->|Hw]; [reflexivity|].
  destruct (decide (tag = "@gym")) as [->|Hg]; [reflexivity|].
  rewrite !decide_False; [reflexivity|..];
    rewrite ?elem_of_cons, elem_of_nil; tauto.
Defined.



Lemma editor_leaves_no_tmpfile_witness :
  fs empty_world !! editor_tmpfile (H := demo_externals true) = None.
Proof.
  exact (editor_leaves_no_tmpfile (H := demo_externals true) default_config
           (mkWorld {[ "/tmp/jrnl" := File "left over" ]} None [] [None] [])
           "left over" empty_world eq_refl).
Defined.

Lemma update_config_twice_witness :
  update_config
    (set_journals
       {[ "default" := ConfPath "journal.txt";
          "work" := ConfDict (mkOverrides (Some "work.txt") None (Some true)
                                (Some "") None) ]}
       work_config)
    decrypted_overrides "work" empty_world
  = update_config work_config decrypted_overrides "work" empty_world.
Proof.
  exact (update_config_twice work_config
           (mkOverrides None None (Some true) (Some "") None)
           decrypted_overrides "work" empty_world _ eq_refl).
Defined.


Lemma no_journal_configured_witness :
  cli_main (H := demo_externals true)
    (set_journals ∅ demo_config) no_args empty_world
  = (Raise TypeError, empty_world).
Proof.
  exact (proj2 (no_journal_configured (H := demo_externals true)
                  (set_journals ∅ demo_config) no_args empty_world
                  eq_refl eq_refl)).
Defined.

Lemma only_crypto_saves_config_witness :
  config_file
    (cli_main (H := demo_externals true) demo_config delete_last_args
       journal_world).2
  = Some demo_config.
Proof.
  apply (only_crypto_saves_config (H := demo_externals true) demo_config
           delete_last_args journal_world).
  intros [Hg|Hg]; by apply Hg.
Defined.

Lemma journal_creation_announced_first_witness :
  ∃ o,
    out (cli_main (H := demo_externals true) demo_config delete_last_args
           empty_world).2
    = ([] ++ [Line "[Journal created at journal.txt]"] ++ o)%list.
Proof.
  exact (journal_creation_announced_first (H := demo_externals true)
           demo_config delete_last_args empty_world "journal.txt"
           eq_refl eq_refl eq_refl).
Defined.

Lemma guess_mode_blank_text_witness :
  guess_mode
    (mkArgs None false ["  "; ""] None None false None false false false
       false ArgFalse ArgFalse false) demo_config
  = (false, false).
Proof.
  apply guess_mode_blank_text; [| | |done|reflexivity].
  - unfold export_flag, given. simpl. intuition congruence.
  - unfold reading_flag, is_set, limit_set. simpl.
    intros [(? & ? & ?)|[(? & ? & ?)|[(? & ? & ?)|[?|?]]]]; congruence.
  - intros (? & ? & ?). simpl in *. congruence.
Defined.

Lemma compose_appends_entry_witness :
  cli_dispatch (H := demo_externals true) default_config demo_config
    "default"
    (mkArgs None true ["  dinner"; "with"; "@Jane "] None None false None
       false false false false ArgFalse ArgFalse false)
    true false plain_journal journal_world
  = (Val (mkJournal
            [ demo_entry default_config 1 "breakfast";
              demo_entry default_config 2 "lunch";
              mkEntry 0 "dinner with @Jane" "" ["@Jane"] true ]
            default_config None false),
     mkWorld {[ "journal.txt" := File "breakfast lunch dinner with @Jane" ]}
       (Some demo_config) [] [] [Line "[Entry added to default journal]"]).
Proof.
  destruct (compose_appends_entry (H := demo_externals true) default_config
              demo_config "default"
              (mkArgs None true ["  dinner"; "with"; "@Jane "] None None
                 false None false false false false ArgFalse ArgFalse false)
              plain_journal journal_world eq_refl ltac:(done)) as [Hok _].
  exact (Hok (mkEntry 0 "dinner with @Jane" "" ["@Jane"] false) eq_refl).
Defined.
